(** * AaveVault: a shallow embedding of [contracts/AaveVault.sol]

    The vault accepts ETH deposits, lets anyone push the idle ETH into
    Aave V3 (wrapping it into WETH first) and lets every depositor withdraw
    a share of the vault's value proportional to the principal withdrawn.

    Modelling choices, all taken from the Solidity source:
    - [uint256] values are [N]; the compiler is [>=0.8.0], so [+], [-], [*]
      are checked and abort with [Panic(0x11)], [/] aborts with
      [Panic(0x12)] on a zero divisor;
    - [mapping(address => uint256)] is a [gmap] read with default [0];
    - a function body is a computation over the mutable contract state that
      may abort; [transact] is the EVM's transaction boundary, which throws
      the mutated state away when the body aborts;
    - [address(this).balance] and [aToken.balanceOf(address(this))] are
      part of the state the vault observes;
    - the external contracts (WETH, the Aave pool, the ETH recipient) are
      not part of the repository: their answers are the fields of an
      [External] record, and every call made to them is appended to a
      trace. External contracts are assumed not to call back into the
      vault while it runs. *)

From Stdlib Require Import NArith Lia List.
From stdpp Require Import gmap strings.

Local Open Scope N_scope.

(** ** Machine words *)

Definition address := N.

Definition MAX_UINT256 : N := 2 ^ 256 - 1.

Definition uint256 (n : N) : Prop := n <= MAX_UINT256.

(** ** Events, external calls, errors *)

Inductive event :=
| Deposited (user : address) (amount : N)
| SuppliedToAave (amount : N) (caller : address)
| Withdrawn (user : address) (depositAmount totalAmount : N).

(** What the vault does to the outside world, in program order. *)
Inductive action :=
| WethDeposit (value : N)                  (* weth.deposit{ value: v }() *)
| WethApprove (amount : N)                 (* weth.approve(address(aavePool), v) *)
| PoolSupply (amount : N)                  (* aavePool.supply(weth, v, this, 0) *)
| PoolWithdraw (amount : N)                (* aavePool.withdraw(weth, v, this) *)
| WethTransfer (to : address) (amount : N) (* weth.transfer(to, v) *)
| EthSend (to : address) (amount : N)      (* to.call{ value: v }("") *)
| Emit (e : event).

Inductive callee := TheWeth | ThePool.

Inductive error :=
| Revert (reason : string)     (* a failed [require(cond, reason)] *)
| Panic (code : N)             (* 0x11 = 17 overflow/underflow, 0x12 = 18 division by zero *)
| CalleeReverted (c : callee). (* an external call reverted; the revert bubbles up *)

Definition PANIC_ARITH : N := 17.
Definition PANIC_DIV0 : N := 18.

Inductive result (A : Type) :=
| Ok (a : A)
| Err (e : error).
Arguments Ok {A} a.
Arguments Err {A} e.

(** ** The collaborators outside the repository *)

Record External := {
  (* does [weth.deposit{ value: v }()] return normally? *)
  weth_deposit : N -> bool;
  (* does [weth.approve(pool, v)] return normally? (its result is ignored) *)
  weth_approve : N -> bool;
  (* [aavePool.supply]: aToken balance before, amount |-> aToken balance
     after; [None] when the pool reverts *)
  pool_supply : N -> N -> option N;
  (* [aavePool.withdraw]: aToken balance before, amount |-> (value returned,
     aToken balance after); [None] when the pool reverts *)
  pool_withdraw : N -> N -> option (N * N);
  (* [weth.transfer(to, v)]: [None] when it reverts, else its result *)
  weth_transfer : address -> N -> option bool;
  (* does [to] accept a plain call carrying [v] wei? *)
  eth_accept : address -> N -> bool
}.

(** ** Contract state *)

Record Vault := {
  userDeposits : gmap address N;
  totalDeposits : N;
  balance : N;        (* address(this).balance *)
  aTokenBalance : N   (* aToken.balanceOf(address(this)) *)
}.

(** [userDeposits[a]] *)
Definition deposit_of (s : Vault) (a : address) : N :=
  default 0 (userDeposits s !! a).

Definition initial : Vault :=
  {| userDeposits := ∅; totalDeposits := 0; balance := 0; aTokenBalance := 0 |}.

(** ** The execution monad: state, trace and abort *)

Record Machine := { vault : Vault; trace : list action }.

Definition M (A : Type) : Type := Machine -> Machine * result A.

Definition ret {A} (a : A) : M A := fun m => (m, Ok a).

Definition bind {A B} (c : M A) (k : A -> M B) : M B :=
  fun m => match c m with
           | (m', Ok a) => k a m'
           | (m', Err e) => (m', Err e)
           end.

#[export] Instance M_ret : MRet M := @ret.
#[export] Instance M_bind : MBind M := fun A B k c => bind c k.

Definition fail {A} (e : error) : M A := fun m => (m, Err e).

Definition require (c : bool) (reason : string) : M unit :=
  if c then ret tt else fail (Revert reason).

Definition gets {A} (f : Vault -> A) : M A := fun m => (m, Ok (f (vault m))).

Definition modify (f : Vault -> Vault) : M unit :=
  fun m => ({| vault := f (vault m); trace := trace m |}, Ok tt).

Definition log (a : action) : M unit :=
  fun m => ({| vault := vault m; trace := trace m ++ [a] |}, Ok tt).

Definition emit (e : event) : M unit := log (Emit e).

(** Checked arithmetic of Solidity 0.8. *)
Definition checked_add (a b : N) : M N :=
  if a + b <=? MAX_UINT256 then ret (a + b) else fail (Panic PANIC_ARITH).

Definition checked_sub (a b : N) : M N :=
  if b <=? a then ret (a - b) else fail (Panic PANIC_ARITH).

Definition checked_mul (a b : N) : M N :=
  if a * b <=? MAX_UINT256 then ret (a * b) else fail (Panic PANIC_ARITH).

Definition checked_div (a b : N) : M N :=
  if b =? 0 then fail (Panic PANIC_DIV0) else ret (a / b).

(** State updates. *)
Definition set_deposit (a : address) (v : N) (s : Vault) : Vault :=
  {| userDeposits := <[a := v]> (userDeposits s); totalDeposits := totalDeposits s;
     balance := balance s; aTokenBalance := aTokenBalance s |}.

Definition set_total (v : N) (s : Vault) : Vault :=
  {| userDeposits := userDeposits s; totalDeposits := v;
     balance := balance s; aTokenBalance := aTokenBalance s |}.

Definition set_balance (v : N) (s : Vault) : Vault :=
  {| userDeposits := userDeposits s; totalDeposits := totalDeposits s;
     balance := v; aTokenBalance := aTokenBalance s |}.

Definition set_aToken (v : N) (s : Vault) : Vault :=
  {| userDeposits := userDeposits s; totalDeposits := totalDeposits s;
     balance := balance s; aTokenBalance := v |}.

(** The value attached to a payable call is credited before the body runs.
    This is the platform moving wei, not a Solidity addition: no overflow
    check applies. *)
Definition credit (value : N) : M unit :=
  modify (fun s => set_balance (balance s + value) s).

(** ** External calls *)

(** A call that carries more wei than the vault holds fails. *)
Definition call_weth_deposit (ext : External) (value : N) : M unit :=
  b ← gets balance;
  if (value <=? b) && weth_deposit ext value
  then modify (set_balance (b - value));; log (WethDeposit value)
  else fail (CalleeReverted TheWeth).

Definition call_weth_approve (ext : External) (amount : N) : M unit :=
  if weth_approve ext amount then log (WethApprove amount)
  else fail (CalleeReverted TheWeth).

Definition call_pool_supply (ext : External) (amount : N) : M unit :=
  a ← gets aTokenBalance;
  match pool_supply ext a amount with
  | Some a' => modify (set_aToken a');; log (PoolSupply amount)
  | None => fail (CalleeReverted ThePool)
  end.

Definition call_pool_withdraw (ext : External) (amount : N) : M N :=
  a ← gets aTokenBalance;
  match pool_withdraw ext a amount with
  | Some (withdrawn, a') =>
      modify (set_aToken a');; log (PoolWithdraw amount);; ret withdrawn
  | None => fail (CalleeReverted ThePool)
  end.

Definition call_weth_transfer (ext : External) (to : address) (amount : N) : M bool :=
  match weth_transfer ext to amount with
  | Some ok => log (WethTransfer to amount);; ret ok
  | None => fail (CalleeReverted TheWeth)
  end.

(** [to.call{ value: v }("")]: a low-level call, it reports failure instead
    of reverting. *)
Definition call_eth_send (ext : External) (to : address) (value : N) : M bool :=
  b ← gets balance;
  if (value <=? b) && eth_accept ext to value
  then modify (set_balance (b - value));; log (EthSend to value);; ret true
  else ret false.

(** ** The contract's functions *)

Definition getTotalVaultValue : M N :=
  ethBalance ← gets balance;
  aaveBalance ← gets aTokenBalance;
  checked_add ethBalance aaveBalance.

Definition deposit (sender : address) (value : N) : M unit :=
  credit value;;
  require (0 <? value) "Must deposit more than 0";;
  d ← gets (fun s => deposit_of s sender);
  d' ← checked_add d value;
  modify (set_deposit sender d');;
  t ← gets totalDeposits;
  t' ← checked_add t value;
  modify (set_total t');;
  emit (Deposited sender value).

Definition supplyToAave (ext : External) (sender : address) : M unit :=
  ethBalance ← gets balance;
  require (0 <? ethBalance) "No ETH to supply";;
  call_weth_deposit ext ethBalance;;
  call_weth_approve ext ethBalance;;
  call_pool_supply ext ethBalance;;
  emit (SuppliedToAave ethBalance sender).

Definition withdraw (ext : External) (sender : address) (amount : N) : M unit :=
  require (0 <? amount) "Must withdraw more than 0";;
  d ← gets (fun s => deposit_of s sender);
  require (amount <=? d) "Insufficient balance";;
  totalVaultValue ← getTotalVaultValue;
  t ← gets totalDeposits;
  p ← checked_mul totalVaultValue amount;
  userShare ← checked_div p t;
  d ← gets (fun s => deposit_of s sender);
  d' ← checked_sub d amount;
  modify (set_deposit sender d');;
  t ← gets totalDeposits;
  t' ← checked_sub t amount;
  modify (set_total t');;
  ethBalance ← gets balance;
  aaveBalance ← gets aTokenBalance;
  sends ← (if (ethBalance <? userShare) && (0 <? aaveBalance)
            then
              amountToWithdraw ← checked_sub userShare ethBalance;
              withdrawn ← call_pool_withdraw ext amountToWithdraw;
              ret (withdrawn, ethBalance)
            else ret (0, userShare));
  let wethToSend := fst sends in
  let ethToSend := snd sends in
  (if 0 <? wethToSend
   then ok ← call_weth_transfer ext sender wethToSend;
        require ok "WETH transfer failed"
   else ret tt);;
  (if 0 <? ethToSend
   then success ← call_eth_send ext sender ethToSend;
        require success "ETH transfer failed"
   else ret tt);;
  emit (Withdrawn sender amount userShare).

Definition getUserValue (user : address) : M N :=
  t ← gets totalDeposits;
  if t =? 0 then ret 0
  else
    totalVaultValue ← getTotalVaultValue;
    d ← gets (fun s => deposit_of s user);
    p ← checked_mul totalVaultValue d;
    checked_div p t.

Definition getUserInterest (user : address) : M N :=
  t ← gets totalDeposits;
  if t =? 0 then ret 0
  else
    totalVaultValue ← getTotalVaultValue;
    d ← gets (fun s => deposit_of s user);
    p ← checked_mul totalVaultValue d;
    userTotalValue ← checked_div p t;
    if d <? userTotalValue then checked_sub userTotalValue d else ret 0.

Definition getEthBalance : M N := gets balance.

Definition getAaveBalance : M N := gets aTokenBalance.

(** [receive() external payable {}] *)
Definition receive (value : N) : M unit := credit value.

(** ** Transactions and view calls *)

(** A transaction keeps the state and the trace of a body that returns and
    restores the pre-call state when the body aborts. *)
Definition transact (body : M unit) (s : Vault) : Vault * result (list action) :=
  match body {| vault := s; trace := [] |} with
  | (m, Ok _) => (vault m, Ok (trace m))
  | (_, Err e) => (s, Err e)
  end.

Definition view {A} (body : M A) (s : Vault) : result A :=
  snd (body {| vault := s; trace := [] |}).

(** Amounts that reached [to], read off the trace. *)
Fixpoint native_paid (to : address) (tr : list action) : N :=
  match tr with
  | [] => 0
  | EthSend r v :: tr' => (if r =? to then v else 0) + native_paid to tr'
  | _ :: tr' => native_paid to tr'
  end.

Fixpoint wrapped_paid (to : address) (tr : list action) : N :=
  match tr with
  | [] => 0
  | WethTransfer r v :: tr' => (if r =? to then v else 0) + wrapped_paid to tr'
  | _ :: tr' => wrapped_paid to tr'
  end.

(** An external collaborator that behaves like the deployed ones: WETH wraps
    and transfers, the pool credits supplies 1:1 and pays out exactly what
    is asked (all of it on [type(uint256).max]), and recipients accept
    ETH. *)
Definition honest : External := {|
  weth_deposit := fun _ => true;
  weth_approve := fun _ => true;
  pool_supply := fun a v => Some (a + v);
  pool_withdraw := fun a v =>
    let w := if v =? MAX_UINT256 then a else v in
    if w <=? a then Some (w, a - w) else None;
  weth_transfer := fun _ _ => Some true;
  eth_accept := fun _ _ => true
|}.

Definition alice : address := 1.
Definition bob : address := 2.

(** A recipient that refuses ETH. *)
Definition refusing : External := {|
  weth_deposit := weth_deposit honest;
  weth_approve := weth_approve honest;
  pool_supply := pool_supply honest;
  pool_withdraw := pool_withdraw honest;
  weth_transfer := weth_transfer honest;
  eth_accept := fun _ _ => false
|}.

(** A pool whose [withdraw] reverts. *)
Definition reverting_pool : External := {|
  weth_deposit := weth_deposit honest;
  weth_approve := weth_approve honest;
  pool_supply := pool_supply honest;
  pool_withdraw := fun _ _ => None;
  weth_transfer := weth_transfer honest;
  eth_accept := eth_accept honest
|}.

(** A WETH whose [transfer] returns [false]. *)
Definition failing_weth : External := {|
  weth_deposit := weth_deposit honest;
  weth_approve := weth_approve honest;
  pool_supply := pool_supply honest;
  pool_withdraw := pool_withdraw honest;
  weth_transfer := fun _ _ => Some false;
  eth_accept := eth_accept honest
|}.

(** A pool that hands out 3 wei less than it is asked for. *)
Definition short_pool : External := {|
  weth_deposit := weth_deposit honest;
  weth_approve := weth_approve honest;
  pool_supply := pool_supply honest;
  pool_withdraw := fun a v => Some (v - 3, a - (v - 3));
  weth_transfer := weth_transfer honest;
  eth_accept := eth_accept honest
|}.

(** ** The valuation queries as the specification words them *)

(** [userValue(d) = totalPrincipal == 0 ? 0
                  : floor(totalVaultValue * principalDeposited[d] / totalPrincipal)] *)
Definition spec_userValue (s : Vault) (d : address) : N :=
  if totalDeposits s =? 0 then 0
  else ((balance s + aTokenBalance s) * deposit_of s d) / totalDeposits s.

(** [userInterest(d) = max(0, userValue(d) - principalDeposited[d])], the
    difference taken in the integers. *)
Definition spec_userInterest (s : Vault) (d : address) : N :=
  Z.to_N (Z.max 0 (Z.of_N (spec_userValue s d) - Z.of_N (deposit_of s d))).


(** ** Sequences of calls *)

Inductive call :=
| CallDeposit (sender : address) (value : N)
| CallSupplyToAave (ext : External) (sender : address)
| CallWithdraw (ext : External) (sender : address) (amount : N)
| CallReceive (value : N)      (* a plain transfer of ETH to the vault *)
| Accrue (newBalance : N).     (* the aToken balance moves outside the vault *)

Definition body_of (c : call) : M unit :=
  match c with
  | CallDeposit sender value => deposit sender value
  | CallSupplyToAave ext sender => supplyToAave ext sender
  | CallWithdraw ext sender amount => withdraw ext sender amount
  | CallReceive value => receive value
  | Accrue b => modify (set_aToken b)
  end.

Definition exec (c : call) (s : Vault) : Vault := fst (transact (body_of c) s).

Fixpoint run (cs : list call) (s : Vault) : Vault :=
  match cs with
  | [] => s
  | c :: cs' => run cs' (exec c s)
  end.

(** The sum of [userDeposits] over all depositors. *)
Definition sum_deposits (m : gmap address N) : N :=
  map_fold (fun _ v acc => v + acc) 0 m.

(** The share formula of [withdraw], [getUserValue] and [getUserInterest]. *)
Definition share (s : Vault) (principal : N) : N :=
  ((balance s + aTokenBalance s) * principal) / totalDeposits s.

(** The state a successful [withdraw] leaves: the caller's record and the
    total are reduced by [amount]; [bal] and [atok] are the balances left. *)
Definition after_withdraw (s : Vault) (sender : address) (amount bal atok : N) : Vault :=
  {| userDeposits := <[sender := deposit_of s sender - amount]> (userDeposits s);
     totalDeposits := totalDeposits s - amount;
     balance := bal; aTokenBalance := atok |}.

(** A transfer guarded by [if (x > 0)]. *)
Definition opt (c : bool) (a : action) : list action := if c then [a] else [].

(** ** Construction and deployment *)

(** The three [immutable] fields. *)
Record Immutables := {
  aavePool : address;
  weth : address;
  aToken : address
}.

(** [constructor(address _aavePool, address _weth, address _aToken)];
    [address(0)] is [0]. *)
Definition constructor (_aavePool _weth _aToken : address) : M Immutables :=
  require (negb (_aavePool =? 0)) "Invalid Aave Pool address";;
  require (negb (_weth =? 0)) "Invalid WETH address";;
  require (negb (_aToken =? 0)) "Invalid aToken address";;
  ret {| aavePool := _aavePool; weth := _weth; aToken := _aToken |}.

(** Contract creation: the constructor runs on empty storage; the account
    exists only if it returns. *)
Definition create (_aavePool _weth _aToken : address) : result (Immutables * Vault) :=
  match constructor _aavePool _weth _aToken {| vault := initial; trace := [] |} with
  | (m, Ok im) => Ok (im, vault m)
  | (_, Err e) => Err e
  end.

(** The deployment script [deploy/01_deploy_aave_vault.ts]. The entries of
    the Aave address book come from a package outside the repository and
    are taken as a parameter. *)
Module Deploy.

Record AddressBook := {
  POOL : address;        (* AaveV3Optimism.POOL *)
  UNDERLYING : address;  (* AaveV3Optimism.ASSETS.WETH.UNDERLYING *)
  A_TOKEN : address      (* AaveV3Optimism.ASSETS.WETH.A_TOKEN *)
}.

Record NetworkConfig := {
  cfg_aavePool : address;
  cfg_weth : address;
  cfg_aToken : address
}.

(** [getNetworkConfig]: [inl msg] is [throw new Error(msg)]. *)
Definition getNetworkConfig (book : AddressBook) (networkName : string)
  : string + NetworkConfig :=
  if String.eqb networkName "optimism" || String.eqb networkName "localhost"
     || String.eqb networkName "hardhat"
  then inr {| cfg_aavePool := POOL book; cfg_weth := UNDERLYING book;
              cfg_aToken := A_TOKEN book |}
  else inl (String.append "Network "
              (String.append networkName
                 " not supported. Please add network configuration to getNetworkConfig() function.")).

(** [deployAaveVault]: look the network up, then create the contract with
    [args: [config.aavePool, config.weth, config.aToken]]. *)
Definition deployAaveVault (book : AddressBook) (networkName : string)
  : string + result (Immutables * Vault) :=
  match getNetworkConfig book networkName with
  | inl msg => inl msg
  | inr config => inr (create (cfg_aavePool config) (cfg_weth config) (cfg_aToken config))
  end.

End Deploy.

(** What [getUserValue] reports, added up over all depositors. *)
Definition sum_values (s : Vault) : N :=
  map_fold (fun _ p acc => share s p + acc) 0 (userDeposits s).

(** Calls in which the pool does not lose value: a supply is credited at
    least 1:1, a withdrawal burns exactly the aTokens asked for, and the
    aToken balance otherwise only grows. *)
Definition value_kept (c : call) (s : Vault) : Prop :=
  match c with
  | CallSupplyToAave ext _ =>
      forall a', pool_supply ext (aTokenBalance s) (balance s) = Some a' ->
                 aTokenBalance s + balance s <= a'
  | CallWithdraw ext _ amount =>
      forall w a',
        pool_withdraw ext (aTokenBalance s) (share s amount - balance s) = Some (w, a') ->
        a' + (share s amount - balance s) = aTokenBalance s
  | Accrue b => aTokenBalance s <= b
  | _ => True
  end.

Fixpoint all_value_kept (cs : list call) (s : Vault) : Prop :=
  match cs with
  | [] => True
  | c :: cs' => value_kept c s /\ all_value_kept cs' (exec c s)
  end.

(** * Proofs *)

(** ** Tactics *)

(** Unfold the monad down to functions on the machine state. *)
Ltac unfold_monad :=
  unfold mbind, mret, M_bind, M_ret in *;
  unfold bind, ret, fail, require, gets, modify, log,
    emit, credit, checked_add, checked_sub, checked_mul, checked_div in *.

(** Turn boolean comparisons in the hypotheses into propositions. *)
Ltac to_prop :=
  repeat match goal with
    | H : (_ <? _) = true |- _ => apply N.ltb_lt in H
    | H : (_ <? _) = false |- _ => apply N.ltb_ge in H
    | H : (_ <=? _) = true |- _ => apply N.leb_le in H
    | H : (_ <=? _) = false |- _ => apply N.leb_gt in H
    | H : (_ =? _) = true |- _ => apply N.eqb_eq in H
    | H : (_ =? _) = false |- _ => apply N.eqb_neq in H
    end.

(** Rewrite a comparison in the hypothesis [H] (or the goal) to a known value. *)
Ltac know_in H c b :=
  replace c with b in H
    by (symmetry; first [apply N.ltb_lt | apply N.ltb_ge | apply N.leb_le
                        | apply N.leb_gt | apply N.eqb_eq | apply N.eqb_neq]; lia).

Ltac know c b :=
  replace c with b
    by (symmetry; first [apply N.ltb_lt | apply N.ltb_ge | apply N.leb_le
                        | apply N.leb_gt | apply N.eqb_eq | apply N.eqb_neq]; lia).

(** Unfold [withdraw] and everything it calls. *)
Ltac unfold_withdraw :=
  unfold transact, withdraw, getTotalVaultValue, call_pool_withdraw,
    call_weth_transfer, call_eth_send;
  unfold_monad; simpl.

(** ** A first run *)

Example deposit_then_supply :
  let s1 := fst (transact (deposit alice 10) initial) in
  transact (supplyToAave honest bob) s1 =
  ({| userDeposits := {[ alice := 10 ]}; totalDeposits := 10; balance := 0; aTokenBalance := 10 |},
   Ok [WethDeposit 10; WethApprove 10; PoolSupply 10; Emit (SuppliedToAave 10 bob)]).
Proof. vm_compute. reflexivity. Qed.

(** ** Sums over the ledger *)

Lemma sum_deposits_empty : sum_deposits ∅ = 0.
Proof. unfold sum_deposits. apply map_fold_empty. Qed.

Lemma sum_deposits_fresh (m : gmap address N) a v :
  m !! a = None -> sum_deposits (<[a := v]> m) = v + sum_deposits m.
Proof.
  intros Hnone. unfold sum_deposits.
  apply (map_fold_insert_L (fun _ v acc => v + acc)); [| exact Hnone].
  intros. lia.
Qed.

Lemma sum_deposits_insert (m : gmap address N) a v :
  sum_deposits (<[a := v]> m) + default 0 (m !! a) = sum_deposits m + v.
Proof.
  destruct (m !! a) as [x|] eqn:Hlook; simpl.
  - rewrite <- (insert_delete_eq m a v).
    rewrite <- (insert_id m a x Hlook) at 2.
    rewrite <- (insert_delete_eq m a x).
    rewrite !sum_deposits_fresh by apply lookup_delete_eq. lia.
  - rewrite sum_deposits_fresh by assumption. lia.
Qed.

Lemma deposit_le_sum (m : gmap address N) a :
  default 0 (m !! a) <= sum_deposits m.
Proof.
  destruct (m !! a) as [x|] eqn:Hlook; simpl; [| lia].
  rewrite <- (insert_id m a x Hlook) at 1.
  rewrite <- (insert_delete_eq m a x).
  rewrite sum_deposits_fresh by apply lookup_delete_eq. lia.
Qed.

(** ** The transaction boundary *)


Lemma transact_cases (body : M unit) s :
  (exists e, transact body s = (s, Err e)) \/
  (exists s' tr, transact body s = (s', Ok tr)).
Proof.
  unfold transact. destruct (body _) as [m [u|e]]; eauto.
Qed.

(** ** deposit *)

Lemma deposit_zero sender s :
  transact (deposit sender 0) s = (s, Err (Revert "Must deposit more than 0")).
Proof. reflexivity. Qed.

Lemma deposit_ok sender value s :
  0 < value ->
  deposit_of s sender + value <= MAX_UINT256 ->
  totalDeposits s + value <= MAX_UINT256 ->
  transact (deposit sender value) s =
  ({| userDeposits := <[sender := deposit_of s sender + value]> (userDeposits s);
      totalDeposits := totalDeposits s + value;
      balance := balance s + value;
      aTokenBalance := aTokenBalance s |},
   Ok [Emit (Deposited sender value)]).
Proof.
  intros Hv Hd Ht. unfold transact, deposit. unfold_monad. simpl.
  know (0 <? value) true. simpl. unfold deposit_of in *. simpl.
  know (default 0 (userDeposits s !! sender) + value <=? MAX_UINT256) true. simpl.
  know (totalDeposits s + value <=? MAX_UINT256) true. reflexivity.
Qed.

Lemma deposit_overflow sender value s :
  0 < value ->
  MAX_UINT256 < deposit_of s sender + value \/ MAX_UINT256 < totalDeposits s + value ->
  transact (deposit sender value) s = (s, Err (Panic PANIC_ARITH)).
Proof.
  intros Hv Hover. unfold transact, deposit. unfold_monad. simpl.
  know (0 <? value) true. simpl. unfold deposit_of in *. simpl.
  destruct (default 0 (userDeposits s !! sender) + value <=? MAX_UINT256) eqn:Hd;
    simpl; [| reflexivity].
  to_prop. know (totalDeposits s + value <=? MAX_UINT256) false. reflexivity.
Qed.

Lemma deposit_ok_inv sender value s s' tr :
  transact (deposit sender value) s = (s', Ok tr) ->
  0 < value /\ deposit_of s sender + value <= MAX_UINT256 /\
  totalDeposits s + value <= MAX_UINT256.
Proof.
  intros H.
  destruct (N.eq_dec value 0) as [-> | Hv]; [rewrite deposit_zero in H; discriminate |].
  destruct (N.le_gt_cases (deposit_of s sender + value) MAX_UINT256) as [Hd | Hd];
    [| rewrite deposit_overflow in H by (auto; lia); discriminate].
  destruct (N.le_gt_cases (totalDeposits s + value) MAX_UINT256) as [Ht | Ht];
    [| rewrite deposit_overflow in H by (auto; lia); discriminate].
  repeat split; try assumption; lia.
Qed.

(** ** supplyToAave *)

Lemma supply_no_eth ext sender s :
  balance s = 0 ->
  transact (supplyToAave ext sender) s = (s, Err (Revert "No ETH to supply")).
Proof.
  intros Hb. unfold transact, supplyToAave. unfold_monad. simpl. rewrite Hb. reflexivity.
Qed.

Lemma supply_ok_inv ext sender s s' tr :
  transact (supplyToAave ext sender) s = (s', Ok tr) ->
  0 < balance s /\
  weth_deposit ext (balance s) = true /\ weth_approve ext (balance s) = true /\
  exists a', pool_supply ext (aTokenBalance s) (balance s) = Some a' /\
    s' = set_aToken a' (set_balance 0 s) /\
    tr = [WethDeposit (balance s); WethApprove (balance s); PoolSupply (balance s);
          Emit (SuppliedToAave (balance s) sender)].
Proof.
  unfold transact, supplyToAave, call_weth_deposit, call_weth_approve, call_pool_supply.
  unfold_monad. simpl.
  destruct (0 <? balance s) eqn:Hb; simpl; [| discriminate].
  rewrite N.leb_refl. simpl.
  destruct (weth_deposit ext (balance s)); simpl; [| discriminate].
  destruct (weth_approve ext (balance s)); simpl; [| discriminate].
  destruct (pool_supply ext (aTokenBalance s) (balance s)) as [a'|] eqn:Hp;
    simpl; [| discriminate].
  intros H. injection H as <- <-. to_prop.
  repeat (split; [auto |]). exists a'. rewrite N.sub_diag. repeat split.
Qed.

Lemma supply_ok ext sender s a' :
  0 < balance s ->
  weth_deposit ext (balance s) = true -> weth_approve ext (balance s) = true ->
  pool_supply ext (aTokenBalance s) (balance s) = Some a' ->
  transact (supplyToAave ext sender) s =
  (set_aToken a' (set_balance 0 s),
   Ok [WethDeposit (balance s); WethApprove (balance s); PoolSupply (balance s);
       Emit (SuppliedToAave (balance s) sender)]).
Proof.
  intros Hb Hd Ha Hp.
  unfold transact, supplyToAave, call_weth_deposit, call_weth_approve, call_pool_supply.
  unfold_monad. simpl.
  know (0 <? balance s) true. simpl. rewrite N.leb_refl, Hd. simpl.
  rewrite Ha. simpl. rewrite Hp. simpl. rewrite N.sub_diag. reflexivity.
Qed.

Lemma supply_err_inv ext sender s e :
  0 < balance s ->
  snd (transact (supplyToAave ext sender) s) = Err e ->
  exists c, e = CalleeReverted c.
Proof.
  intros Hb.
  unfold transact, supplyToAave, call_weth_deposit, call_weth_approve, call_pool_supply.
  unfold_monad. simpl.
  know (0 <? balance s) true. simpl. rewrite N.leb_refl. simpl.
  destruct (weth_deposit ext (balance s)); simpl; [| intros [= <-]; eauto].
  destruct (weth_approve ext (balance s)); simpl; [| intros [= <-]; eauto].
  destruct (pool_supply ext (aTokenBalance s) (balance s)) as [a'|];
    simpl; [discriminate | intros [= <-]; eauto].
Qed.

(** ** withdraw *)



(** Everything a returning [withdraw] has done. *)
Lemma withdraw_ok_inv ext sender amount s s' tr :
  transact (withdraw ext sender amount) s = (s', Ok tr) ->
  0 < amount /\ amount <= deposit_of s sender /\ totalDeposits s <> 0 /\
  amount <= totalDeposits s /\
  balance s + aTokenBalance s <= MAX_UINT256 /\
  (balance s + aTokenBalance s) * amount <= MAX_UINT256 /\
  ((share s amount <= balance s /\
    (share s amount = 0 \/ eth_accept ext sender (share s amount) = true) /\
    tr = opt (0 <? share s amount) (EthSend sender (share s amount))
         ++ [Emit (Withdrawn sender amount (share s amount))] /\
    s' = after_withdraw s sender amount (balance s - share s amount) (aTokenBalance s))
   \/
   (balance s < share s amount /\ 0 < aTokenBalance s /\
    exists w a',
      pool_withdraw ext (aTokenBalance s) (share s amount - balance s) = Some (w, a') /\
      (w = 0 \/ weth_transfer ext sender w = Some true) /\
      (balance s = 0 \/ eth_accept ext sender (balance s) = true) /\
      tr = [PoolWithdraw (share s amount - balance s)]
           ++ opt (0 <? w) (WethTransfer sender w)
           ++ opt (0 <? balance s) (EthSend sender (balance s))
           ++ [Emit (Withdrawn sender amount (share s amount))] /\
      s' = after_withdraw s sender amount 0 a')).
Proof.
  unfold_withdraw.
  destruct (0 <? amount) eqn:Ha; simpl; [| discriminate].
  destruct (amount <=? deposit_of s sender) eqn:Hd; simpl; [| discriminate].
  destruct (balance s + aTokenBalance s <=? MAX_UINT256) eqn:Hs; simpl; [| discriminate].
  destruct ((balance s + aTokenBalance s) * amount <=? MAX_UINT256) eqn:Hm;
    simpl; [| discriminate].
  destruct (totalDeposits s =? 0) eqn:Ht; simpl; [discriminate |].
  rewrite Hd. simpl.
  destruct (amount <=? totalDeposits s) eqn:Hat; simpl; [| discriminate].
  fold (share s amount). to_prop.
  destruct (balance s <? share s amount) eqn:Hb; simpl; to_prop.
  - destruct (0 <? aTokenBalance s) eqn:Hk; simpl; to_prop.
    + know (balance s <=? share s amount) true. simpl.
      destruct (pool_withdraw ext (aTokenBalance s) (share s amount - balance s))
        as [[w a']|] eqn:Hp; simpl; [| discriminate].
      intros H. repeat (split; [assumption |]). right.
      split; [assumption |]. split; [assumption |]. exists w, a'.
      split; [reflexivity |].
      destruct (0 <? w) eqn:Hw; simpl in H |- *; to_prop.
      * destruct (weth_transfer ext sender w) as [[|]|] eqn:Hwt; simpl in H;
          try discriminate.
        split; [right; reflexivity |].
        destruct (0 <? balance s) eqn:Hz; simpl in H |- *; to_prop.
        -- rewrite N.leb_refl in H. simpl in H.
           destruct (eth_accept ext sender (balance s)) eqn:Hacc; simpl in H;
             [| discriminate].
           injection H as <- <-. rewrite N.sub_diag. repeat split. right; reflexivity.
        -- injection H as <- <-. assert (balance s = 0) as Hz0 by lia.
           split; [left; assumption |]. split; [reflexivity |].
           unfold after_withdraw, set_total, set_deposit, set_aToken.
           simpl. rewrite Hz0. reflexivity.
      * split; [left; lia |].
        destruct (0 <? balance s) eqn:Hz; simpl in H |- *; to_prop.
        -- rewrite N.leb_refl in H. simpl in H.
           destruct (eth_accept ext sender (balance s)) eqn:Hacc; simpl in H;
             [| discriminate].
           injection H as <- <-. rewrite N.sub_diag. repeat split. right; reflexivity.
        -- injection H as <- <-. assert (balance s = 0) as Hz0 by lia.
           split; [left; assumption |]. split; [reflexivity |].
           unfold after_withdraw, set_total, set_deposit, set_aToken.
           simpl. rewrite Hz0. reflexivity.
    + destruct (0 <? share s amount) eqn:Hz; simpl; to_prop; [| lia].
      know (share s amount <=? balance s) false. simpl. discriminate.
  - intros H. repeat (split; [assumption |]). left.
    split; [assumption |].
    destruct (0 <? share s amount) eqn:Hz; simpl in H |- *; to_prop.
    + know_in H (share s amount <=? balance s) true. simpl in H.
      destruct (eth_accept ext sender (share s amount)); simpl in H; [| discriminate].
      injection H as <- <-. split; [right; reflexivity |]. split; reflexivity.
    + injection H as <- <-.
      assert (share s amount = 0) as Hz0 by lia.
      split; [left; assumption |]. split; [reflexivity |].
      unfold after_withdraw, set_total, set_deposit. simpl. rewrite Hz0, N.sub_0_r.
      reflexivity.
Qed.

(** The two ways [withdraw] returns: paid from the idle ETH ... *)
Lemma withdraw_idle_ok ext sender amount s :
  0 < amount -> amount <= deposit_of s sender -> amount <= totalDeposits s ->
  balance s + aTokenBalance s <= MAX_UINT256 ->
  (balance s + aTokenBalance s) * amount <= MAX_UINT256 ->
  share s amount <= balance s ->
  (share s amount = 0 \/ eth_accept ext sender (share s amount) = true) ->
  transact (withdraw ext sender amount) s =
  (after_withdraw s sender amount (balance s - share s amount) (aTokenBalance s),
   Ok (opt (0 <? share s amount) (EthSend sender (share s amount))
       ++ [Emit (Withdrawn sender amount (share s amount))])).
Proof.
  intros Ha Hd Ht Hs Hm Hb Hacc. unfold_withdraw.
  know (0 <? amount) true. simpl.
  know (amount <=? deposit_of s sender) true. simpl.
  know (balance s + aTokenBalance s <=? MAX_UINT256) true. simpl.
  know ((balance s + aTokenBalance s) * amount <=? MAX_UINT256) true. simpl.
  know (totalDeposits s =? 0) false. simpl.
  know (amount <=? deposit_of s sender) true. simpl.
  know (amount <=? totalDeposits s) true. simpl.
  fold (share s amount).
  know (balance s <? share s amount) false. simpl.
  destruct Hacc as [Hz | Hacc].
  - rewrite Hz. simpl. unfold after_withdraw, set_total, set_deposit. simpl.
    rewrite N.sub_0_r. reflexivity.
  - destruct (0 <? share s amount) eqn:Hz; simpl; to_prop.
    + know (share s amount <=? balance s) true. rewrite Hacc. reflexivity.
    + assert (share s amount = 0) as -> by lia.
      unfold after_withdraw, set_total, set_deposit. simpl.
      rewrite N.sub_0_r. reflexivity.
Qed.

(** ... or completed with WETH pulled out of the pool. *)
Lemma withdraw_pool_ok ext sender amount s w a' :
  0 < amount -> amount <= deposit_of s sender -> amount <= totalDeposits s ->
  balance s + aTokenBalance s <= MAX_UINT256 ->
  (balance s + aTokenBalance s) * amount <= MAX_UINT256 ->
  balance s < share s amount -> 0 < aTokenBalance s ->
  pool_withdraw ext (aTokenBalance s) (share s amount - balance s) = Some (w, a') ->
  (w = 0 \/ weth_transfer ext sender w = Some true) ->
  (balance s = 0 \/ eth_accept ext sender (balance s) = true) ->
  transact (withdraw ext sender amount) s =
  (after_withdraw s sender amount 0 a',
   Ok ([PoolWithdraw (share s amount - balance s)]
       ++ opt (0 <? w) (WethTransfer sender w)
       ++ opt (0 <? balance s) (EthSend sender (balance s))
       ++ [Emit (Withdrawn sender amount (share s amount))])).
Proof.
  intros Ha Hd Ht Hs Hm Hb Hk Hp Hw Hacc. unfold_withdraw.
  know (0 <? amount) true. simpl.
  know (amount <=? deposit_of s sender) true. simpl.
  know (balance s + aTokenBalance s <=? MAX_UINT256) true. simpl.
  know ((balance s + aTokenBalance s) * amount <=? MAX_UINT256) true. simpl.
  know (totalDeposits s =? 0) false. simpl.
  know (amount <=? deposit_of s sender) true. simpl.
  know (amount <=? totalDeposits s) true. simpl.
  fold (share s amount).
  know (balance s <? share s amount) true.
  know (0 <? aTokenBalance s) true. simpl.
  know (balance s <=? share s amount) true. simpl.
  rewrite Hp. simpl.
  assert (Hsend :
    ((0 <? balance s) = false /\ balance s = 0) \/
    ((0 <? balance s) = true /\ eth_accept ext sender (balance s) = true)).
  { destruct Hacc as [Hz | Hacc]; [left; rewrite Hz; split; reflexivity |].
    destruct (0 <? balance s) eqn:Hz; [right; split; auto | left; to_prop; split; [auto | lia]]. }
  assert (Hweth :
    ((0 <? w) = false) \/ ((0 <? w) = true /\ weth_transfer ext sender w = Some true)).
  { destruct Hw as [-> | Hw]; [left; reflexivity |].
    destruct (0 <? w); [right; split; auto | left; reflexivity]. }
  destruct Hweth as [Hw0 | [Hw1 Hwt]]; [rewrite Hw0 | rewrite Hw1, Hwt]; simpl;
    (destruct Hsend as [[Hz Hz0] | [Hz Hok]]; rewrite Hz; simpl;
     [ unfold after_withdraw, set_total, set_deposit, set_aToken; simpl;
       rewrite Hz0; reflexivity
     | rewrite N.leb_refl, Hok; simpl; rewrite N.sub_diag; reflexivity ]).
Qed.

(** ** Reading payments off a trace *)

Lemma native_paid_app to tr1 tr2 :
  native_paid to (tr1 ++ tr2) = native_paid to tr1 + native_paid to tr2.
Proof.
  induction tr1 as [| a tr1 IH]; simpl; [reflexivity |].
  destruct a; simpl; rewrite ?IH; lia.
Qed.

Lemma wrapped_paid_app to tr1 tr2 :
  wrapped_paid to (tr1 ++ tr2) = wrapped_paid to tr1 + wrapped_paid to tr2.
Proof.
  induction tr1 as [| a tr1 IH]; simpl; [reflexivity |].
  destruct a; simpl; rewrite ?IH; lia.
Qed.

Lemma native_paid_opt_send to c v :
  (c = false -> v = 0) -> native_paid to (opt c (EthSend to v)) = v.
Proof.
  intros Hc. destruct c; simpl.
  - rewrite N.eqb_refl. lia.
  - symmetry. auto.
Qed.

Lemma wrapped_paid_opt_transfer to c v :
  (c = false -> v = 0) -> wrapped_paid to (opt c (WethTransfer to v)) = v.
Proof.
  intros Hc. destruct c; simpl.
  - rewrite N.eqb_refl. lia.
  - symmetry. auto.
Qed.

Lemma native_paid_opt_transfer to c v : native_paid to (opt c (WethTransfer to v)) = 0.
Proof. destruct c; reflexivity. Qed.

Lemma wrapped_paid_opt_send to c v : wrapped_paid to (opt c (EthSend to v)) = 0.
Proof. destruct c; reflexivity. Qed.

Lemma positive_or_zero v : (0 <? v) = false -> v = 0.
Proof. intros H. to_prop. lia. Qed.

(** ** The ledger invariant *)

Lemma receive_ok v s : transact (receive v) s = (set_balance (balance s + v) s, Ok []).
Proof. reflexivity. Qed.

Lemma exec_keeps_total_sum c s :
  totalDeposits s = sum_deposits (userDeposits s) ->
  totalDeposits (exec c s) = sum_deposits (userDeposits (exec c s)).
Proof.
  intros Hinv. unfold exec.
  destruct (transact_cases (body_of c) s) as [[e H] | (s' & tr & H)];
    rewrite H; simpl; [assumption |].
  destruct c as [sender value | ext sender | ext sender amount | value | b]; simpl in H.
  - destruct (deposit_ok_inv _ _ _ _ _ H) as (Hv & Hd & Ht).
    rewrite deposit_ok in H by assumption. injection H as <- _. simpl.
    pose proof (sum_deposits_insert (userDeposits s) sender (deposit_of s sender + value)).
    unfold deposit_of in *. lia.
  - destruct (supply_ok_inv _ _ _ _ _ H) as (_ & _ & _ & a' & _ & -> & _). assumption.
  - destruct (withdraw_ok_inv _ _ _ _ _ _ H)
      as (_ & Hd & _ & Ht & _ & _ & [(_ & _ & _ & ->) | (_ & _ & w & a' & _ & _ & _ & _ & ->)]);
      simpl;
      pose proof (sum_deposits_insert (userDeposits s) sender (deposit_of s sender - amount));
      unfold deposit_of in *; lia.
  - rewrite receive_ok in H. injection H as <- _. assumption.
  - injection H as <- _. assumption.
Qed.

Lemma run_keeps_total_sum cs s :
  totalDeposits s = sum_deposits (userDeposits s) ->
  totalDeposits (run cs s) = sum_deposits (userDeposits (run cs s)).
Proof.
  revert s. induction cs as [| c cs IH]; intros s Hinv; simpl; [assumption |].
  apply IH, exec_keeps_total_sum, Hinv.
Qed.

Lemma initial_total_sum : totalDeposits initial = sum_deposits (userDeposits initial).
Proof. simpl. rewrite sum_deposits_empty. reflexivity. Qed.

(** No record exceeds the total, so the [-=] on [totalDeposits] in
    [withdraw] cannot underflow once the check on the caller's record has
    passed. *)
Lemma record_le_total cs a :
  deposit_of (run cs initial) a <= totalDeposits (run cs initial).
Proof.
  rewrite (run_keeps_total_sum cs initial initial_total_sum).
  apply deposit_le_sum.
Qed.

(** With no aTokens the share never exceeds the idle ETH: the second
    conjunct of [userShare > ethBalance && aaveBalance > 0] only matters in
    states where the pool branch could not be served anyway. *)
Lemma share_covered_without_aTokens s amount :
  aTokenBalance s = 0 -> amount <= totalDeposits s -> share s amount <= balance s.
Proof.
  intros Ha Hle. unfold share. rewrite Ha, N.add_0_r.
  destruct (N.eq_dec (totalDeposits s) 0) as [Hz | Hnz].
  - rewrite Hz, N.div_0_r. lia.
  - apply N.Div0.div_le_upper_bound. nia.
Qed.

(** C4. In every state reached from the empty ledger by any sequence of
    [deposit], [supplyToAave] and [withdraw] calls (and also by plain ETH
    transfers and movements of the aToken balance), whatever the external
    contracts answer, [totalDeposits] is exactly the sum of [userDeposits]
    over all depositors. *)
Theorem total_is_sum_of_deposits (cs : list call) :
  totalDeposits (run cs initial) = sum_deposits (userDeposits (run cs initial)).
Proof. apply run_keeps_total_sum, initial_total_sum. Qed.

(** ** Failure of withdraw *)

(** The body does mutate the ledger before it aborts: here the caller
    refuses the ETH, and the machine stops with the records already
    reduced. The transaction boundary is what discards them. *)
Example withdraw_body_dirty_on_abort :
  let s := run [CallDeposit alice 10] initial in
  let r := withdraw refusing alice 4 {| vault := s; trace := [] |} in
  snd r = Err (Revert "ETH transfer failed") /\
  totalDeposits (vault (fst r)) = 6 /\ totalDeposits s = 10 /\
  transact (withdraw refusing alice 4) s = (s, Err (Revert "ETH transfer failed")).
Proof. vm_compute. repeat split. Qed.

(** The other collaborator failures: a reverting pool and a WETH transfer
    that reports failure. *)
Example withdraw_collaborator_failures :
  let s := run [CallDeposit alice 10; CallSupplyToAave honest bob] initial in
  transact (withdraw reverting_pool alice 4) s = (s, Err (CalleeReverted ThePool)) /\
  transact (withdraw failing_weth alice 4) s = (s, Err (Revert "WETH transfer failed")).
Proof. vm_compute. split; reflexivity. Qed.



(** ** deposit, as a whole *)

Lemma deposit_of_set_deposit_eq s a v : deposit_of (set_deposit a v s) a = v.
Proof. unfold deposit_of, set_deposit. simpl. rewrite lookup_insert_eq. reflexivity. Qed.

Lemma deposit_of_set_deposit_ne s a b v :
  a <> b -> deposit_of (set_deposit a v s) b = deposit_of s b.
Proof.
  intros Hne. unfold deposit_of, set_deposit. simpl.
  rewrite lookup_insert_ne by assumption. reflexivity.
Qed.

(** C5, amended. [deposit] fails with "Must deposit more than 0" when the
    attached value is 0. For an attached value > 0 it succeeds whenever the
    caller's record and the total, increased by the value, still fit in 256
    bits: the caller's record and [totalDeposits] grow by exactly the
    value, the other records are untouched, the ETH stays in the vault and
    the only effect is the [Deposited] event, no external call. When one of
    the two sums does not fit, the call aborts with an arithmetic panic and
    changes nothing. *)
Theorem deposit_spec sender value s :
  (value = 0 ->
   transact (deposit sender value) s = (s, Err (Revert "Must deposit more than 0"))) /\
  (0 < value ->
   deposit_of s sender + value <= MAX_UINT256 ->
   totalDeposits s + value <= MAX_UINT256 ->
   exists s',
     transact (deposit sender value) s = (s', Ok [Emit (Deposited sender value)]) /\
     deposit_of s' sender = deposit_of s sender + value /\
     totalDeposits s' = totalDeposits s + value /\
     (forall other, other <> sender -> deposit_of s' other = deposit_of s other) /\
     balance s' = balance s + value /\
     aTokenBalance s' = aTokenBalance s) /\
  (0 < value ->
   MAX_UINT256 < deposit_of s sender + value \/ MAX_UINT256 < totalDeposits s + value ->
   transact (deposit sender value) s = (s, Err (Panic PANIC_ARITH))).
Proof.
  split; [| split].
  - intros ->. apply deposit_zero.
  - intros Hv Hd Ht. eexists. split; [apply deposit_ok; assumption |].
    split; [apply (deposit_of_set_deposit_eq s) |].
    split; [reflexivity |].
    split; [| split; reflexivity].
    intros other Hne. apply (deposit_of_set_deposit_ne s). congruence.
  - intros Hv Hover. apply deposit_overflow; assumption.
Qed.

Lemma deposit_spec_witness :
  transact (deposit alice 0) initial = (initial, Err (Revert "Must deposit more than 0")) /\
  (exists s',
     transact (deposit alice 10) initial = (s', Ok [Emit (Deposited alice 10)]) /\
     deposit_of s' alice = deposit_of initial alice + 10 /\
     totalDeposits s' = totalDeposits initial + 10 /\
     (forall other, other <> alice -> deposit_of s' other = deposit_of initial other) /\
     balance s' = balance initial + 10 /\
     aTokenBalance s' = aTokenBalance initial) /\
  transact (deposit alice 1)
    (run [CallDeposit alice MAX_UINT256; CallSupplyToAave honest bob] initial)
  = (run [CallDeposit alice MAX_UINT256; CallSupplyToAave honest bob] initial,
     Err (Panic PANIC_ARITH)).
Proof.
  split; [| split].
  - apply (deposit_spec alice 0 initial). reflexivity.
  - apply (deposit_spec alice 10 initial); vm_compute; first [reflexivity | discriminate].
  - apply (deposit_spec alice 1); [reflexivity | left; vm_compute; reflexivity].
Defined.

(** C5 as stated fails: a deposit of 1 wei is rejected, with an arithmetic
    panic, when the caller's record already holds [2^256 - 1]. *)
Lemma deposit_overflow_counterexample :
  let s := run [CallDeposit alice MAX_UINT256; CallSupplyToAave honest bob] initial in
  deposit_of s alice = MAX_UINT256 /\ balance s = 0 /\
  0 < 1 /\ uint256 1 /\
  transact (deposit alice 1) s = (s, Err (Panic PANIC_ARITH)).
Proof. vm_compute. repeat split; discriminate. Qed.

(** ** The valuation queries *)

Lemma getTotalVaultValue_view s :
  view getTotalVaultValue s =
  if balance s + aTokenBalance s <=? MAX_UINT256
  then Ok (balance s + aTokenBalance s) else Err (Panic PANIC_ARITH).
Proof.
  unfold view, getTotalVaultValue. unfold_monad. simpl.
  destruct (balance s + aTokenBalance s <=? MAX_UINT256); reflexivity.
Qed.

Lemma getUserValue_view s d :
  view (getUserValue d) s =
  if totalDeposits s =? 0 then Ok 0
  else if (balance s + aTokenBalance s <=? MAX_UINT256)
          && ((balance s + aTokenBalance s) * deposit_of s d <=? MAX_UINT256)
       then Ok (((balance s + aTokenBalance s) * deposit_of s d) / totalDeposits s)
       else Err (Panic PANIC_ARITH).
Proof.
  unfold view, getUserValue, getTotalVaultValue. unfold_monad. simpl.
  destruct (totalDeposits s =? 0) eqn:Ht; simpl; [reflexivity |].
  destruct (balance s + aTokenBalance s <=? MAX_UINT256); simpl; [| reflexivity].
  destruct ((balance s + aTokenBalance s) * deposit_of s d <=? MAX_UINT256); simpl;
    reflexivity.
Qed.

Lemma getUserInterest_view s d :
  view (getUserInterest d) s =
  if totalDeposits s =? 0 then Ok 0
  else if (balance s + aTokenBalance s <=? MAX_UINT256)
          && ((balance s + aTokenBalance s) * deposit_of s d <=? MAX_UINT256)
       then Ok (((balance s + aTokenBalance s) * deposit_of s d) / totalDeposits s
                - deposit_of s d)
       else Err (Panic PANIC_ARITH).
Proof.
  unfold view, getUserInterest, getTotalVaultValue. unfold_monad. simpl.
  destruct (totalDeposits s =? 0) eqn:Ht; simpl; [reflexivity |].
  destruct (balance s + aTokenBalance s <=? MAX_UINT256); simpl; [| reflexivity].
  destruct ((balance s + aTokenBalance s) * deposit_of s d <=? MAX_UINT256); simpl;
    [| reflexivity].
  destruct (deposit_of s d <? _) eqn:Hlt; simpl; to_prop.
  - match goal with |- context [?a <=? ?b] => know (a <=? b) true end. reflexivity.
  - f_equal. lia.
Qed.

Lemma queries_leave_state d m :
  fst (getTotalVaultValue m) = m /\ fst (getUserValue d m) = m /\
  fst (getUserInterest d m) = m.
Proof.
  unfold getUserValue, getUserInterest, getTotalVaultValue. unfold_monad. simpl.
  destruct (totalDeposits (vault m) =? 0) eqn:Ht; simpl;
    (destruct (balance (vault m) + aTokenBalance (vault m) <=? MAX_UINT256); simpl;
     [| auto]).
  - auto.
  - destruct ((balance (vault m) + aTokenBalance (vault m)) * deposit_of (vault m) d
              <=? MAX_UINT256); simpl; [| auto].
    destruct (deposit_of (vault m) d <? _) eqn:Hlt; simpl; [| auto]. to_prop.
    match goal with |- context [?a <=? ?b] => know (a <=? b) true end. auto.
Qed.

Lemma spec_userInterest_sub s d :
  spec_userInterest s d = spec_userValue s d - deposit_of s d.
Proof. unfold spec_userInterest. lia. Qed.

(** C6, amended. In every state and for every depositor, [getUserValue]
    and [getUserInterest] return the values the specification gives,
    [totalDeposits == 0 ? 0 : floor(totalVaultValue * userDeposits[d] /
    totalDeposits)] and [max(0, userValue - userDeposits[d])], whenever
    [totalDeposits] is 0 or both the vault value [balance + aTokenBalance]
    and its product with the depositor's record fit in 256 bits; otherwise
    they abort with an arithmetic panic. They never divide by zero and
    never change the state. *)
Theorem valuation_queries s d :
  let fits := (balance s + aTokenBalance s <=? MAX_UINT256)
              && ((balance s + aTokenBalance s) * deposit_of s d <=? MAX_UINT256) in
  view (getUserValue d) s =
    (if (totalDeposits s =? 0) || fits then Ok (spec_userValue s d)
     else Err (Panic PANIC_ARITH)) /\
  view (getUserInterest d) s =
    (if (totalDeposits s =? 0) || fits then Ok (spec_userInterest s d)
     else Err (Panic PANIC_ARITH)) /\
  (forall m, fst (getUserValue d m) = m /\ fst (getUserInterest d m) = m).
Proof.
  simpl. rewrite getUserValue_view, getUserInterest_view, spec_userInterest_sub.
  unfold spec_userValue.
  split; [| split].
  - destruct (totalDeposits s =? 0); simpl; [reflexivity |].
    destruct (_ && _); reflexivity.
  - destruct (totalDeposits s =? 0); simpl; [reflexivity |].
    destruct (_ && _); reflexivity.
  - intros m. apply (queries_leave_state d m).
Qed.

(** C6 as stated fails: after a single deposit of [2^128] wei the product
    [totalVaultValue * userDeposits[alice]] is [2^256], and both queries
    abort. *)
Lemma valuation_overflow_counterexample :
  let s := run [CallDeposit alice (2 ^ 128)] initial in
  totalDeposits s = 2 ^ 128 /\
  view (getUserValue alice) s = Err (Panic PANIC_ARITH) /\
  view (getUserInterest alice) s = Err (Panic PANIC_ARITH).
Proof. vm_compute. repeat split. Qed.

(** C9, amended. When [totalDeposits] is 0, [getUserValue] and
    [getUserInterest] return 0 for every address and no query divides by
    zero; [getTotalVaultValue] returns [balance + aTokenBalance] when that
    sum fits in 256 bits and aborts with an arithmetic panic when it does
    not; it returns 0 exactly when the vault holds neither ETH nor aTokens,
    as in a freshly deployed vault. *)
Theorem empty_ledger_queries s d :
  totalDeposits s = 0 ->
  view (getUserValue d) s = Ok 0 /\
  view (getUserInterest d) s = Ok 0 /\
  view getTotalVaultValue s <> Err (Panic PANIC_DIV0) /\
  view getTotalVaultValue s =
    (if balance s + aTokenBalance s <=? MAX_UINT256
     then Ok (balance s + aTokenBalance s) else Err (Panic PANIC_ARITH)) /\
  (view getTotalVaultValue s = Ok 0 <-> balance s = 0 /\ aTokenBalance s = 0).
Proof.
  intros Ht.
  rewrite getUserValue_view, getUserInterest_view, getTotalVaultValue_view, Ht. simpl.
  split; [reflexivity |]. split; [reflexivity |].
  destruct (balance s + aTokenBalance s <=? MAX_UINT256) eqn:Hfit; to_prop.
  - split; [discriminate |]. split; [reflexivity |].
    split; [intros [= H]; lia | intros [-> ->]; reflexivity].
  - split; [discriminate |]. split; [reflexivity |].
    split; [discriminate | intros [Hb Ha]; rewrite Hb, Ha in Hfit; vm_compute in Hfit; discriminate].
Qed.

Lemma empty_ledger_queries_witness :
  let s := run [CallReceive 5] initial in
  view (getUserValue alice) s = Ok 0 /\
  view (getUserInterest alice) s = Ok 0 /\
  view getTotalVaultValue s <> Err (Panic PANIC_DIV0) /\
  view getTotalVaultValue s =
    (if balance s + aTokenBalance s <=? MAX_UINT256
     then Ok (balance s + aTokenBalance s) else Err (Panic PANIC_ARITH)) /\
  (view getTotalVaultValue s = Ok 0 <-> balance s = 0 /\ aTokenBalance s = 0).
Proof. apply (empty_ledger_queries (run [CallReceive 5] initial) alice). reflexivity. Defined.

(** The arithmetic panic is met with an empty ledger as well: the aToken
    balance at [2^256 - 1] and one wei sent to the vault. *)
Example empty_ledger_value_panics :
  let s := run [Accrue MAX_UINT256; CallReceive 1] initial in
  totalDeposits s = 0 /\ view getTotalVaultValue s = Err (Panic PANIC_ARITH).
Proof. vm_compute. split; reflexivity. Qed.

(** C9 as stated fails: 5 wei sent to an empty vault leave [totalDeposits]
    at 0 while [getTotalVaultValue] reports 5. *)
Lemma empty_ledger_value_counterexample :
  let s := run [CallReceive 5] initial in
  totalDeposits s = 0 /\ view getTotalVaultValue s = Ok 5.
Proof. vm_compute. split; reflexivity. Qed.

(** ** What withdraw pays *)

Lemma withdraw_payments ext sender amount s s' tr :
  transact (withdraw ext sender amount) s = (s', Ok tr) ->
  (share s amount <= balance s /\
   tr = opt (0 <? share s amount) (EthSend sender (share s amount))
        ++ [Emit (Withdrawn sender amount (share s amount))] /\
   native_paid sender tr = share s amount /\ wrapped_paid sender tr = 0 /\
   balance s' = balance s - share s amount /\ aTokenBalance s' = aTokenBalance s)
  \/
  (balance s < share s amount /\
   exists w a',
     pool_withdraw ext (aTokenBalance s) (share s amount - balance s) = Some (w, a') /\
     tr = [PoolWithdraw (share s amount - balance s)]
          ++ opt (0 <? w) (WethTransfer sender w)
          ++ opt (0 <? balance s) (EthSend sender (balance s))
          ++ [Emit (Withdrawn sender amount (share s amount))] /\
     native_paid sender tr = balance s /\ wrapped_paid sender tr = w /\
     balance s' = 0 /\ aTokenBalance s' = a').
Proof.
  intros H.
  destruct (withdraw_ok_inv _ _ _ _ _ _ H)
    as (_ & _ & _ & _ & _ & _ &
        [(Hb & _ & -> & ->) | (Hb & _ & w & a' & Hp & _ & _ & -> & ->)]).
  - left. split; [assumption |]. split; [reflexivity |].
    rewrite native_paid_app, wrapped_paid_app, wrapped_paid_opt_send.
    rewrite native_paid_opt_send by apply positive_or_zero.
    simpl. repeat split; lia.
  - right. split; [assumption |]. exists w, a'.
    split; [assumption |]. split; [reflexivity |].
    simpl app at 1.
    cbn [native_paid wrapped_paid].
    rewrite !native_paid_app, !wrapped_paid_app.
    rewrite native_paid_opt_transfer, wrapped_paid_opt_send.
    rewrite native_paid_opt_send by apply positive_or_zero.
    rewrite wrapped_paid_opt_transfer by apply positive_or_zero.
    simpl. repeat split; lia.
Qed.

(** C1, amended. For every [withdraw] call that returns and in which the
    pool, if it is asked for WETH at all (the share exceeds the idle ETH),
    hands out exactly the amount requested, the ETH and the WETH
    transferred to the caller add up to
    [floor(totalVaultValue * amount / totalDeposits)], with the vault value
    and [totalDeposits] read at the start of the call; such a call has
    [0 < amount <= userDeposits[caller]]. *)
Theorem withdraw_pays_share ext sender amount s s' tr :
  transact (withdraw ext sender amount) s = (s', Ok tr) ->
  (balance s < share s amount ->
   forall w a',
     pool_withdraw ext (aTokenBalance s) (share s amount - balance s) = Some (w, a') ->
     w = share s amount - balance s) ->
  0 < amount /\ amount <= deposit_of s sender /\
  native_paid sender tr + wrapped_paid sender tr
  = ((balance s + aTokenBalance s) * amount) / totalDeposits s.
Proof.
  intros H Hexact.
  destruct (withdraw_ok_inv _ _ _ _ _ _ H) as (Ha & Hd & _).
  split; [assumption |]. split; [assumption |].
  fold (share s amount).
  destruct (withdraw_payments _ _ _ _ _ _ H)
    as [(Hb & _ & Hn & Hw & _) | (Hb & w & a' & Hp & _ & Hn & Hw & _)].
  - lia.
  - specialize (Hexact Hb w a' Hp). lia.
Qed.

Lemma withdraw_pays_share_witness :
  let s := run [CallDeposit alice 10; CallSupplyToAave honest bob; Accrue 20;
                CallDeposit bob 5] initial in
  let tr := [PoolWithdraw 3; WethTransfer alice 3; EthSend alice 5;
             Emit (Withdrawn alice 5 8)] in
  0 < 5 /\ 5 <= deposit_of s alice /\
  native_paid alice tr + wrapped_paid alice tr
  = ((balance s + aTokenBalance s) * 5) / totalDeposits s.
Proof.
  apply (withdraw_pays_share honest alice 5 _
           (after_withdraw
              (run [CallDeposit alice 10; CallSupplyToAave honest bob; Accrue 20;
                    CallDeposit bob 5] initial) alice 5 0 17)).
  - vm_compute. reflexivity.
  - intros _ w a'. vm_compute. intros [= <- _]. reflexivity.
Defined.

(** C1 as stated fails: the caller is paid what the pool returned, not what
    was asked of it. With all 10 wei supplied and a pool that returns 7 when
    asked for 10, the call returns and the caller has received 7, not the
    share of 10. *)
Lemma withdraw_short_pool_counterexample :
  let s := run [CallDeposit alice 10; CallSupplyToAave honest bob] initial in
  exists s' tr,
    transact (withdraw short_pool alice 10) s = (s', Ok tr) /\
    0 < 10 /\ 10 <= deposit_of s alice /\
    ((balance s + aTokenBalance s) * 10) / totalDeposits s = 10 /\
    native_paid alice tr + wrapped_paid alice tr = 7.
Proof.
  eexists. eexists. split; [vm_compute; reflexivity |].
  vm_compute. repeat split; discriminate.
Qed.

(** C3, amended. For every [withdraw] that returns, with [payout] the share
    [floor(totalVaultValue * amount / totalDeposits)]: if the idle ETH
    covers [payout], the caller is sent [payout] in ETH, nothing is pulled
    and no WETH is sent; otherwise the pool is asked for [payout - balance],
    and the caller is sent the whole idle ETH balance plus, in WETH, the
    amount the pool returned. Which of the two happens is decided by the
    comparison of [balance] with [payout] alone. *)
Theorem withdraw_routing ext sender amount s s' tr :
  transact (withdraw ext sender amount) s = (s', Ok tr) ->
  (share s amount <= balance s ->
   tr = opt (0 <? share s amount) (EthSend sender (share s amount))
        ++ [Emit (Withdrawn sender amount (share s amount))] /\
   native_paid sender tr = share s amount /\ wrapped_paid sender tr = 0 /\
   balance s' = balance s - share s amount /\ aTokenBalance s' = aTokenBalance s) /\
  (balance s < share s amount ->
   exists w a',
     pool_withdraw ext (aTokenBalance s) (share s amount - balance s) = Some (w, a') /\
     tr = [PoolWithdraw (share s amount - balance s)]
          ++ opt (0 <? w) (WethTransfer sender w)
          ++ opt (0 <? balance s) (EthSend sender (balance s))
          ++ [Emit (Withdrawn sender amount (share s amount))] /\
     native_paid sender tr = balance s /\ wrapped_paid sender tr = w /\
     balance s' = 0 /\ aTokenBalance s' = a').
Proof.
  intros H.
  destruct (withdraw_payments _ _ _ _ _ _ H) as [(Hb & Hidle) | (Hb & Hpool)].
  - split; [intros _; exact Hidle | intros Hlt; lia].
  - split; [intros Hle; lia | intros _; exact Hpool].
Qed.

Lemma withdraw_routing_witness :
  let s := run [CallDeposit alice 10; CallSupplyToAave honest bob; Accrue 20;
                CallDeposit bob 5] initial in
  share s 5 = 8 /\ balance s = 5 /\
  exists w a',
    pool_withdraw honest (aTokenBalance s) (share s 5 - balance s) = Some (w, a') /\
    [PoolWithdraw 3; WethTransfer alice 3; EthSend alice 5; Emit (Withdrawn alice 5 8)]
    = [PoolWithdraw (share s 5 - balance s)]
      ++ opt (0 <? w) (WethTransfer alice w)
      ++ opt (0 <? balance s) (EthSend alice (balance s))
      ++ [Emit (Withdrawn alice 5 (share s 5))] /\
    native_paid alice [PoolWithdraw 3; WethTransfer alice 3; EthSend alice 5;
                       Emit (Withdrawn alice 5 8)] = balance s /\
    wrapped_paid alice [PoolWithdraw 3; WethTransfer alice 3; EthSend alice 5;
                        Emit (Withdrawn alice 5 8)] = w /\
    balance (after_withdraw s alice 5 0 17) = 0 /\
    aTokenBalance (after_withdraw s alice 5 0 17) = a'.
Proof.
  split; [vm_compute; reflexivity |]. split; [vm_compute; reflexivity |].
  apply (withdraw_routing honest alice 5
           (run [CallDeposit alice 10; CallSupplyToAave honest bob; Accrue 20;
                 CallDeposit bob 5] initial)).
  - vm_compute. reflexivity.
  - vm_compute. reflexivity.
Defined.

(** C3 as stated fails: the WETH sent is what the pool returned, not the
    [payout - balance] it was asked for. With nothing idle and a pool that
    returns 7 when asked for 10, the call returns with 7 WETH sent. *)
Lemma withdraw_routing_short_pool_counterexample :
  let s := run [CallDeposit alice 10; CallSupplyToAave honest bob] initial in
  exists s' tr,
    transact (withdraw short_pool alice 10) s = (s', Ok tr) /\
    balance s < share s 10 /\
    share s 10 - balance s = 10 /\
    tr = [PoolWithdraw 10; WethTransfer alice 7; Emit (Withdrawn alice 10 10)] /\
    native_paid alice tr = balance s /\
    wrapped_paid alice tr = 7 /\
    wrapped_paid alice tr <> share s 10 - balance s.
Proof.
  eexists. eexists. split; [vm_compute; reflexivity |].
  vm_compute. repeat split; discriminate.
Qed.

(** ** Deposit followed by withdraw *)

Lemma share_after_deposit sender amount s :
  0 < amount ->
  balance s + aTokenBalance s = totalDeposits s ->
  share {| userDeposits := <[sender := deposit_of s sender + amount]> (userDeposits s);
           totalDeposits := totalDeposits s + amount;
           balance := balance s + amount;
           aTokenBalance := aTokenBalance s |} amount = amount.
Proof.
  intros Ha Hval. unfold share. simpl.
  replace (balance s + amount + aTokenBalance s) with (totalDeposits s + amount) by lia.
  rewrite N.mul_comm. apply N.div_mul. lia.
Qed.

Lemma share_after_deposit_near sender amount s :
  0 < amount ->
  totalDeposits s <= balance s + aTokenBalance s ->
  (balance s + aTokenBalance s - totalDeposits s) * amount < totalDeposits s + amount ->
  share {| userDeposits := <[sender := deposit_of s sender + amount]> (userDeposits s);
           totalDeposits := totalDeposits s + amount;
           balance := balance s + amount;
           aTokenBalance := aTokenBalance s |} amount = amount.
Proof.
  intros Ha Hge Hnear. unfold share. simpl. symmetry.
  apply (N.div_unique _ _ _
           ((balance s + aTokenBalance s - totalDeposits s) * amount)); [assumption |].
  nia.
Qed.

(** C7, amended. A [deposit] of [amount] followed at once by a [withdraw]
    of [amount] by the same depositor, both returning, leaves the
    depositor's record (and [totalDeposits]) at its value before the
    deposit. It sends the depositor exactly [amount], all of it in ETH,
    whenever before the deposit the vault value [balance + aTokenBalance]
    is at least [totalDeposits] and exceeds it by so little that
    [(value - totalDeposits) * amount < totalDeposits + amount]: in
    particular whenever the vault is worth exactly its principal. *)
Theorem deposit_withdraw_round_trip ext sender amount s s1 tr1 s2 tr2 :
  transact (deposit sender amount) s = (s1, Ok tr1) ->
  transact (withdraw ext sender amount) s1 = (s2, Ok tr2) ->
  deposit_of s2 sender = deposit_of s sender /\
  totalDeposits s2 = totalDeposits s /\
  (totalDeposits s <= balance s + aTokenBalance s ->
   (balance s + aTokenBalance s - totalDeposits s) * amount < totalDeposits s + amount ->
   native_paid sender tr2 = amount /\ wrapped_paid sender tr2 = 0) /\
  (balance s + aTokenBalance s = totalDeposits s ->
   native_paid sender tr2 = amount /\ wrapped_paid sender tr2 = 0).
Proof.
  intros Hdep Hwd.
  destruct (deposit_ok_inv _ _ _ _ _ Hdep) as (Ha & Hd & Ht).
  rewrite deposit_ok in Hdep by assumption. injection Hdep as <- _.
  assert (Hpaid : totalDeposits s <= balance s + aTokenBalance s ->
                  (balance s + aTokenBalance s - totalDeposits s) * amount
                  < totalDeposits s + amount ->
                  native_paid sender tr2 = amount /\ wrapped_paid sender tr2 = 0).
  { intros Hge Hnear.
    pose proof (share_after_deposit_near sender amount s Ha Hge Hnear) as Hshare.
    destruct (withdraw_payments _ _ _ _ _ _ Hwd)
      as [(_ & _ & Hn & Hw & _) | (Hb & _)];
      [| rewrite Hshare in Hb; simpl in Hb; lia].
    rewrite Hshare in Hn. split; assumption. }
  destruct (withdraw_ok_inv _ _ _ _ _ _ Hwd)
    as (_ & _ & _ & _ & _ & _ &
        [(_ & _ & _ & Hs2) | (_ & _ & w & a' & _ & _ & _ & _ & Hs2)]);
    rewrite Hs2; unfold after_withdraw, deposit_of; simpl;
    rewrite !lookup_insert_eq; simpl;
    (split; [lia |]); (split; [lia |]); (split; [exact Hpaid |]);
    intros Hval;
    (apply Hpaid;
     [lia | replace (balance s + aTokenBalance s - totalDeposits s) with 0 by lia; lia]).
Qed.

(** When the vault is worth exactly its principal the two calls do return,
    as long as the sums
    and the product computed on the way fit in 256 bits and the depositor
    accepts ETH. *)
Lemma round_trip_returns ext sender amount s :
  balance s + aTokenBalance s = totalDeposits s ->
  0 < amount ->
  deposit_of s sender <= totalDeposits s ->
  (totalDeposits s + amount) * amount <= MAX_UINT256 ->
  eth_accept ext sender amount = true ->
  exists s1 s2,
    transact (deposit sender amount) s = (s1, Ok [Emit (Deposited sender amount)]) /\
    transact (withdraw ext sender amount) s1
    = (s2, Ok [EthSend sender amount; Emit (Withdrawn sender amount amount)]).
Proof.
  intros Hval Ha Hle Hfit Hacc.
  assert (totalDeposits s + amount <= MAX_UINT256) by nia.
  eexists. eexists. split; [apply deposit_ok; lia |].
  pose proof (share_after_deposit sender amount s Ha Hval) as Hshare.
  rewrite withdraw_idle_ok; rewrite ?Hshare; simpl;
    rewrite ?deposit_of_set_deposit_eq; try lia; auto.
  - know (0 <? amount) true. reflexivity.
  - unfold deposit_of. simpl. rewrite lookup_insert_eq. simpl. lia.
Qed.

Lemma deposit_withdraw_round_trip_witness :
  let s := run [CallDeposit alice 10; CallSupplyToAave honest alice; Accrue 11] initial in
  let tr2 := [EthSend bob 4; Emit (Withdrawn bob 4 4)] in
  deposit_of (run [CallDeposit bob 4; CallWithdraw honest bob 4] s) bob = deposit_of s bob /\
  totalDeposits (run [CallDeposit bob 4; CallWithdraw honest bob 4] s) = totalDeposits s /\
  native_paid bob tr2 = 4 /\ wrapped_paid bob tr2 = 0.
Proof.
  destruct (deposit_withdraw_round_trip honest bob 4
              (run [CallDeposit alice 10; CallSupplyToAave honest alice; Accrue 11] initial)
              (run [CallDeposit alice 10; CallSupplyToAave honest alice; Accrue 11;
                    CallDeposit bob 4] initial)
              [Emit (Deposited bob 4)]
              (run [CallDeposit alice 10; CallSupplyToAave honest alice; Accrue 11;
                    CallDeposit bob 4; CallWithdraw honest bob 4] initial)
              [EthSend bob 4; Emit (Withdrawn bob 4 4)])
    as (Hrec & Htot & Hnear & _).
  - vm_compute. reflexivity.
  - vm_compute. reflexivity.
  - split; [exact Hrec |]. split; [exact Htot |].
    apply Hnear; vm_compute; first [reflexivity | discriminate].
Defined.

(** C7 as stated fails once the vault has earned interest: after alice's
    10 wei have grown to 20 inside the pool, bob deposits 10 and withdraws
    10 at once, and receives 15 (10 in ETH and 5 in WETH); his record is
    back at its earlier value. *)
Lemma round_trip_after_yield_counterexample :
  let s := run [CallDeposit alice 10; CallSupplyToAave honest alice; Accrue 20] initial in
  exists s1 s2 tr2,
    transact (deposit bob 10) s = (s1, Ok [Emit (Deposited bob 10)]) /\
    transact (withdraw honest bob 10) s1 = (s2, Ok tr2) /\
    native_paid bob tr2 = 10 /\ wrapped_paid bob tr2 = 5 /\
    native_paid bob tr2 + wrapped_paid bob tr2 <> 10.
Proof.
  eexists. eexists. eexists.
  split; [vm_compute; reflexivity |]. split; [vm_compute; reflexivity |].
  vm_compute. repeat split; discriminate.
Qed.

(** ** supplyToAave, as a whole *)

(** C8. [supplyToAave] fails with "No ETH to supply" when the vault holds
    no ETH. Otherwise, the external calls returning, it wraps the whole
    balance into WETH, approves the pool and supplies that amount, and the
    balance is 0 afterwards while the ledger is untouched; when the pool
    credits the supplied amount 1:1 to the aToken balance,
    [getTotalVaultValue] answers after the call what it answered before.
    The only way the call can fail with ETH at hand is a revert of one of
    the external calls. *)
Theorem supplyToAave_spec ext sender s :
  (balance s = 0 ->
   transact (supplyToAave ext sender) s = (s, Err (Revert "No ETH to supply"))) /\
  (0 < balance s ->
   weth_deposit ext (balance s) = true ->
   weth_approve ext (balance s) = true ->
   pool_supply ext (aTokenBalance s) (balance s) = Some (aTokenBalance s + balance s) ->
   exists s',
     transact (supplyToAave ext sender) s =
       (s', Ok [WethDeposit (balance s); WethApprove (balance s); PoolSupply (balance s);
                Emit (SuppliedToAave (balance s) sender)]) /\
     balance s' = 0 /\
     aTokenBalance s' = aTokenBalance s + balance s /\
     userDeposits s' = userDeposits s /\ totalDeposits s' = totalDeposits s /\
     view getTotalVaultValue s' = view getTotalVaultValue s) /\
  (forall s' tr,
     transact (supplyToAave ext sender) s = (s', Ok tr) ->
     balance s' = 0 /\
     tr = [WethDeposit (balance s); WethApprove (balance s); PoolSupply (balance s);
           Emit (SuppliedToAave (balance s) sender)]) /\
  (forall e,
     0 < balance s ->
     snd (transact (supplyToAave ext sender) s) = Err e ->
     exists c, e = CalleeReverted c).
Proof.
  split; [| split; [| split]].
  - apply supply_no_eth.
  - intros Hb Hd Ha Hp. eexists.
    split; [apply supply_ok; eassumption |].
    repeat (split; [reflexivity |]).
    rewrite !getTotalVaultValue_view. simpl.
    rewrite (N.add_comm (balance s) (aTokenBalance s)). reflexivity.
  - intros s' tr H.
    destruct (supply_ok_inv _ _ _ _ _ H) as (_ & _ & _ & a' & _ & -> & ->).
    split; reflexivity.
  - intros e Hb He. eapply supply_err_inv; eassumption.
Qed.

Lemma supplyToAave_spec_witness :
  transact (supplyToAave honest bob) initial = (initial, Err (Revert "No ETH to supply")) /\
  (let s := run [CallDeposit alice 10] initial in
   exists s',
     transact (supplyToAave honest bob) s =
       (s', Ok [WethDeposit (balance s); WethApprove (balance s); PoolSupply (balance s);
                Emit (SuppliedToAave (balance s) bob)]) /\
     balance s' = 0 /\
     aTokenBalance s' = aTokenBalance s + balance s /\
     userDeposits s' = userDeposits s /\ totalDeposits s' = totalDeposits s /\
     view getTotalVaultValue s' = view getTotalVaultValue s).
Proof.
  split.
  - apply (supplyToAave_spec honest bob initial). reflexivity.
  - apply (supplyToAave_spec honest bob (run [CallDeposit alice 10] initial));
      vm_compute; reflexivity.
Defined.

(** ** ETH sent straight to the vault *)

Lemma share_le_value s amount :
  amount <= totalDeposits s -> share s amount <= balance s + aTokenBalance s.
Proof.
  intros Hle. unfold share.
  destruct (N.eq_dec (totalDeposits s) 0) as [Hz | Hnz]; [rewrite Hz, N.div_0_r; lia |].
  apply N.Div0.div_le_upper_bound. nia.
Qed.

Lemma honest_pool_pays v a :
  v <= a -> a <= MAX_UINT256 -> exists a', pool_withdraw honest a v = Some (v, a').
Proof.
  intros Hva Ha. simpl.
  destruct (v =? MAX_UINT256) eqn:Hmax; to_prop.
  - assert (a = v) as -> by lia. rewrite N.leb_refl. eauto.
  - know (v <=? a) true. eauto.
Qed.

(** With collaborators that behave, a withdrawal of recorded principal
    returns and pays the share. *)
Lemma withdraw_honest_returns s sender amount :
  0 < amount -> amount <= deposit_of s sender -> amount <= totalDeposits s ->
  balance s + aTokenBalance s <= MAX_UINT256 ->
  (balance s + aTokenBalance s) * amount <= MAX_UINT256 ->
  exists s' tr,
    transact (withdraw honest sender amount) s = (s', Ok tr) /\
    native_paid sender tr + wrapped_paid sender tr = share s amount.
Proof.
  intros Ha Hd Ht Hfit Hprod.
  pose proof (share_le_value s amount Ht) as Hshare.
  destruct (N.le_gt_cases (share s amount) (balance s)) as [Hidle | Hpool].
  - eexists. eexists. split;
      [apply withdraw_idle_ok; try assumption; right; reflexivity |].
    rewrite native_paid_app, wrapped_paid_app, wrapped_paid_opt_send.
    rewrite native_paid_opt_send by apply positive_or_zero. simpl. lia.
  - assert (Hk : 0 < aTokenBalance s).
    { destruct (N.eq_dec (aTokenBalance s) 0) as [Hz | Hnz]; [| lia].
      pose proof (share_covered_without_aTokens s amount Hz Ht). lia. }
    destruct (honest_pool_pays (share s amount - balance s) (aTokenBalance s))
      as [a' Hp]; [lia | lia |].
    eexists. eexists. split.
    + eapply withdraw_pool_ok; try eassumption; right; reflexivity.
    + simpl app at 1. cbn [native_paid wrapped_paid].
      rewrite !native_paid_app, !wrapped_paid_app.
      rewrite native_paid_opt_transfer, wrapped_paid_opt_send.
      rewrite native_paid_opt_send by apply positive_or_zero.
      rewrite wrapped_paid_opt_transfer by apply positive_or_zero.
      simpl. lia.
Qed.

(** C10, amended. A plain transfer of [v > 0] wei to the vault (its
    [receive] function) always succeeds, calls nothing and records nothing:
    every depositor's record and [totalDeposits] are unchanged and the
    balance grows by [v]. [getTotalVaultValue] then reports the vault value
    increased by [v] whenever that still fits in 256 bits, and aborts with
    an arithmetic panic when it does not. Sent to the empty vault it leaves
    a positive vault value above a [totalDeposits] of 0, without any yield.
    The value is shared pro rata by later withdrawals: a [withdraw] that
    returns pays [floor((balance + v + aTokenBalance) * amount /
    totalDeposits)] (the pool, if it is pulled from, handing out exactly
    what it is asked for), and with collaborators that behave a withdrawal
    of recorded principal does return and pay it, as long as the enlarged
    value and its product with [amount] fit in 256 bits. *)
Theorem receive_no_bookkeeping v s :
  0 < v ->
  exists s',
    transact (receive v) s = (s', Ok []) /\
    userDeposits s' = userDeposits s /\ totalDeposits s' = totalDeposits s /\
    balance s' = balance s + v /\ aTokenBalance s' = aTokenBalance s /\
    view getTotalVaultValue s' =
      (if balance s + aTokenBalance s + v <=? MAX_UINT256
       then Ok (balance s + aTokenBalance s + v) else Err (Panic PANIC_ARITH)) /\
    (forall t, view getTotalVaultValue s = Ok t -> t + v <= MAX_UINT256 ->
               view getTotalVaultValue s' = Ok (t + v)) /\
    (s = initial -> v <= MAX_UINT256 ->
     view getTotalVaultValue s' = Ok v /\ totalDeposits s' = 0) /\
    (forall ext sender amount s2 tr,
       transact (withdraw ext sender amount) s' = (s2, Ok tr) ->
       (balance s' < share s' amount ->
        forall w a',
          pool_withdraw ext (aTokenBalance s') (share s' amount - balance s') = Some (w, a') ->
          w = share s' amount - balance s') ->
       native_paid sender tr + wrapped_paid sender tr
       = ((balance s + v + aTokenBalance s) * amount) / totalDeposits s) /\
    (forall sender amount,
       0 < amount -> amount <= deposit_of s sender -> amount <= totalDeposits s ->
       balance s + v + aTokenBalance s <= MAX_UINT256 ->
       (balance s + v + aTokenBalance s) * amount <= MAX_UINT256 ->
       exists s2 tr,
         transact (withdraw honest sender amount) s' = (s2, Ok tr) /\
         native_paid sender tr + wrapped_paid sender tr
         = ((balance s + v + aTokenBalance s) * amount) / totalDeposits s).
Proof.
  intros Hv. exists (set_balance (balance s + v) s).
  split; [apply receive_ok |].
  repeat (split; [reflexivity |]).
  split; [| split; [| split; [| split]]].
  - rewrite getTotalVaultValue_view. simpl.
    replace (balance s + v + aTokenBalance s) with (balance s + aTokenBalance s + v) by lia.
    reflexivity.
  - intros t. rewrite !getTotalVaultValue_view. simpl.
    destruct (balance s + aTokenBalance s <=? MAX_UINT256); [| discriminate].
    intros [= <-] Hfit.
    know (balance s + v + aTokenBalance s <=? MAX_UINT256) true. f_equal. lia.
  - intros -> Hfit. rewrite getTotalVaultValue_view. simpl.
    rewrite ?N.add_0_r, ?N.add_0_l. know (v <=? MAX_UINT256) true. split; reflexivity.
  - intros ext sender amount s2 tr H Hexact.
    destruct (withdraw_payments _ _ _ _ _ _ H)
      as [(Hb & _ & Hn & Hw & _) | (Hb & w & a' & Hp & _ & Hn & Hw & _)].
    + unfold share in Hn. simpl in Hn. lia.
    + specialize (Hexact Hb w a' Hp). unfold share in *. simpl in *. lia.
  - intros sender amount Ha Hd Ht Hfit Hprod.
    apply (withdraw_honest_returns (set_balance (balance s + v) s) sender amount);
      assumption.
Qed.

Lemma receive_no_bookkeeping_witness :
  let s := run [CallDeposit alice 10; CallDeposit bob 20] initial in
  exists s',
    transact (receive 6) s = (s', Ok []) /\
    userDeposits s' = userDeposits s /\ totalDeposits s' = totalDeposits s /\
    balance s' = balance s + 6 /\
    view getTotalVaultValue s' = Ok 36 /\
    exists s2 tr,
      transact (withdraw honest alice 10) s' = (s2, Ok tr) /\
      native_paid alice tr + wrapped_paid alice tr = 12.
Proof.
  destruct (receive_no_bookkeeping 6 (run [CallDeposit alice 10; CallDeposit bob 20] initial))
    as (s' & Hrec & Hud & Htot & Hbal & _ & Htvv & _ & _ & _ & Hlive).
  - reflexivity.
  - exists s'.
    split; [exact Hrec |]. split; [exact Hud |]. split; [exact Htot |].
    split; [exact Hbal |]. split; [rewrite Htvv; vm_compute; reflexivity |].
    destruct (Hlive alice 10) as (s2 & tr & Hw & Hpaid);
      [ reflexivity
      | vm_compute; discriminate
      | vm_compute; discriminate
      | vm_compute; discriminate
      | vm_compute; discriminate
      | ].
    exists s2, tr. split; [exact Hw |]. rewrite Hpaid. vm_compute. reflexivity.
Defined.

(** C10 as stated fails where the enlarged value no longer fits in 256
    bits: with [2^256 - 1] wei supplied to the pool, one more wei sent to
    the vault makes [getTotalVaultValue] abort instead of reporting a value
    larger by 1. *)
Lemma receive_overflow_counterexample :
  let s := run [CallDeposit alice MAX_UINT256; CallSupplyToAave honest bob] initial in
  0 < 1 /\
  view getTotalVaultValue s = Ok MAX_UINT256 /\
  transact (receive 1) s = (exec (CallReceive 1) s, Ok []) /\
  balance (exec (CallReceive 1) s) = balance s + 1 /\
  view getTotalVaultValue (exec (CallReceive 1) s) = Err (Panic PANIC_ARITH).
Proof. vm_compute. repeat split. Qed.

(** The windfall is shared pro rata: 6 wei sent to a vault where alice
    holds 10 and bob 20 raise alice's withdrawal of her 10 from 10 to 12. *)
Example receive_shared_pro_rata :
  let s := run [CallDeposit alice 10; CallDeposit bob 20] initial in
  snd (transact (withdraw honest alice 10) s)
  = Ok [EthSend alice 10; Emit (Withdrawn alice 10 10)] /\
  snd (transact (withdraw honest alice 10) (run [CallReceive 6] s))
  = Ok [EthSend alice 12; Emit (Withdrawn alice 10 12)].
Proof. vm_compute. split; reflexivity. Qed.

(** * Further properties of the contract *)

(** ** Arithmetic of shares *)

Lemma div_le_cross a b c d :
  b <> 0 -> d <> 0 -> a * d <= c * b -> a / b <= c / d.
Proof.
  intros Hb Hd Hle. apply N.div_le_lower_bound; [assumption |].
  pose proof (N.Div0.mul_div_le a b). nia.
Qed.

Lemma div_add_le a b t : a / t + b / t <= (a + b) / t.
Proof.
  destruct (N.eq_dec t 0) as [-> | Ht]; [rewrite !N.div_0_r; lia |].
  apply N.div_le_lower_bound; [assumption |].
  pose proof (N.Div0.mul_div_le a t). pose proof (N.Div0.mul_div_le b t). lia.
Qed.

Lemma share_of_everything s :
  totalDeposits s <> 0 -> share s (totalDeposits s) = balance s + aTokenBalance s.
Proof. intros Hnz. unfold share. apply N.div_mul. assumption. Qed.

(** ** withdraw: bookkeeping, payments, bounds *)

(** X1. A [withdraw] that returns lowers the caller's record and
    [totalDeposits] by exactly [amount] and leaves every other depositor's
    record as it was. *)
Theorem withdraw_bookkeeping ext sender amount s s' tr :
  transact (withdraw ext sender amount) s = (s', Ok tr) ->
  deposit_of s' sender + amount = deposit_of s sender /\
  totalDeposits s' + amount = totalDeposits s /\
  forall other, other <> sender -> deposit_of s' other = deposit_of s other.
Proof.
  intros H.
  destruct (withdraw_ok_inv _ _ _ _ _ _ H)
    as (_ & Hd & _ & Ht & _ & _ & [(_ & _ & _ & ->) | (_ & _ & w & a' & _ & _ & _ & _ & ->)]);
    unfold after_withdraw, deposit_of in *; simpl;
    (split; [rewrite lookup_insert_eq; simpl; lia |]);
    (split; [lia |]);
    intros other Hne; rewrite lookup_insert_ne by congruence; reflexivity.
Qed.

Lemma withdraw_bookkeeping_witness :
  let s := run [CallDeposit alice 10; CallDeposit bob 20] initial in
  let s' := exec (CallWithdraw honest alice 4) s in
  deposit_of s' alice + 4 = deposit_of s alice /\
  totalDeposits s' + 4 = totalDeposits s /\
  forall other, other <> alice -> deposit_of s' other = deposit_of s other.
Proof.
  apply (withdraw_bookkeeping honest alice 4
           (run [CallDeposit alice 10; CallDeposit bob 20] initial) _
           [EthSend alice 4; Emit (Withdrawn alice 4 4)]).
  vm_compute. reflexivity.
Defined.

Lemma paid_nothing_opt_send who to c v :
  who <> to -> native_paid who (opt c (EthSend to v)) = 0.
Proof.
  intros Hne. destruct c; simpl; [| reflexivity].
  know (to =? who) false. reflexivity.
Qed.

Lemma paid_nothing_opt_transfer who to c v :
  who <> to -> wrapped_paid who (opt c (WethTransfer to v)) = 0.
Proof.
  intros Hne. destruct c; simpl; [| reflexivity].
  know (to =? who) false. reflexivity.
Qed.

Lemma wrapped_paid_any_send who to c v : wrapped_paid who (opt c (EthSend to v)) = 0.
Proof. destruct c; reflexivity. Qed.

Lemma native_paid_any_transfer who to c v : native_paid who (opt c (WethTransfer to v)) = 0.
Proof. destruct c; reflexivity. Qed.

Lemma in_opt (x a : action) c : In x (opt c a) -> x = a.
Proof. destruct c; simpl; [intros [<- | []]; reflexivity | intros []]. Qed.

Ltac split_membership :=
  repeat match goal with
    | H : In _ (_ ++ _) |- _ => apply in_app_or in H
    | H : In _ (opt _ _) |- _ => apply in_opt in H
    | H : In _ (_ :: _) |- _ => simpl in H
    | H : In _ [] |- _ => destruct H
    | H : _ \/ _ |- _ => destruct H
    | H : False |- _ => destruct H
    end.

(** X2. Where value goes. In the trace of any returning call, ETH is sent
    by plain call and WETH by [transfer] to nobody but the caller of a
    [withdraw]; the only other ETH that leaves the vault is the whole
    balance, which [supplyToAave] sends to the WETH contract to be wrapped
    for the pool; [deposit] and a plain transfer to the vault send
    nothing. *)
Theorem only_the_withdrawer_is_paid c s s' tr :
  transact (body_of c) s = (s', Ok tr) ->
  (forall to v, In (EthSend to v) tr \/ In (WethTransfer to v) tr ->
                exists ext amount, c = CallWithdraw ext to amount) /\
  (forall v, In (WethDeposit v) tr ->
             v = balance s /\ exists ext sender, c = CallSupplyToAave ext sender) /\
  (forall who, (forall ext amount, c <> CallWithdraw ext who amount) ->
               native_paid who tr = 0 /\ wrapped_paid who tr = 0).
Proof.
  intros H.
  destruct c as [sender value | ext sender | ext sender amount | value | b]; simpl in H.
  - destruct (deposit_ok_inv _ _ _ _ _ H) as (Hv & Hd & Ht).
    rewrite deposit_ok in H by assumption. injection H as _ <-.
    split; [| split].
    + intros to v Hin. split_membership; discriminate.
    + intros v Hin. split_membership; discriminate.
    + intros who _. split; reflexivity.
  - destruct (supply_ok_inv _ _ _ _ _ H) as (_ & _ & _ & a' & _ & _ & ->).
    split; [| split].
    + intros to v Hin. split_membership; discriminate.
    + intros v Hin. split_membership; try discriminate.
      match goal with Heq : WethDeposit _ = WethDeposit _ |- _ => injection Heq as <- end.
      split; [reflexivity | eauto].
    + intros who _. split; reflexivity.
  - destruct (withdraw_payments _ _ _ _ _ _ H)
      as [(_ & -> & _) | (_ & w & a' & _ & -> & _)].
    + split; [| split].
      * intros to v Hin. split_membership; try discriminate.
        match goal with Heq : EthSend _ _ = EthSend _ _ |- _ => injection Heq as -> _ end.
        eauto.
      * intros v Hin. split_membership; discriminate.
      * intros who Hnot.
        assert (who <> sender) as Hne by (intros ->; apply (Hnot ext amount); reflexivity).
        rewrite native_paid_app, wrapped_paid_app, wrapped_paid_any_send.
        rewrite paid_nothing_opt_send by assumption. split; reflexivity.
    + split; [| split].
      * intros to v Hin. split_membership; try discriminate;
          match goal with
          | Heq : EthSend _ _ = EthSend _ _ |- _ => injection Heq as -> _
          | Heq : WethTransfer _ _ = WethTransfer _ _ |- _ => injection Heq as -> _
          end; eauto.
      * intros v Hin. split_membership; discriminate.
      * intros who Hnot.
        assert (who <> sender) as Hne by (intros ->; apply (Hnot ext amount); reflexivity).
        simpl app at 1. cbn [native_paid wrapped_paid].
        rewrite !native_paid_app, !wrapped_paid_app.
        rewrite native_paid_any_transfer, wrapped_paid_any_send.
        rewrite paid_nothing_opt_send, paid_nothing_opt_transfer by assumption.
        split; reflexivity.
  - rewrite receive_ok in H. injection H as _ <-.
    split; [| split].
    + intros to v Hin. split_membership.
    + intros v Hin. split_membership.
    + intros who _. split; reflexivity.
  - injection H as _ <-.
    split; [| split].
    + intros to v Hin. split_membership.
    + intros v Hin. split_membership.
    + intros who _. split; reflexivity.
Qed.

Lemma only_the_withdrawer_is_paid_witness :
  let s := run [CallDeposit alice 10; CallDeposit bob 20; CallSupplyToAave honest bob] initial in
  let tr := [PoolWithdraw 4; WethTransfer alice 4; Emit (Withdrawn alice 4 4)] in
  (forall to v, In (EthSend to v) tr \/ In (WethTransfer to v) tr ->
                exists ext amount, CallWithdraw honest alice 4 = CallWithdraw ext to amount) /\
  native_paid bob tr = 0 /\ wrapped_paid bob tr = 0.
Proof.
  destruct (only_the_withdrawer_is_paid (CallWithdraw honest alice 4)
              (run [CallDeposit alice 10; CallDeposit bob 20; CallSupplyToAave honest bob]
                 initial)
              (exec (CallWithdraw honest alice 4)
                 (run [CallDeposit alice 10; CallDeposit bob 20; CallSupplyToAave honest bob]
                    initial))
              [PoolWithdraw 4; WethTransfer alice 4; Emit (Withdrawn alice 4 4)])
    as (Hto & _ & Hnone).
  - vm_compute. reflexivity.
  - split; [exact Hto |]. apply (Hnone bob). intros ext amount. discriminate.
Defined.

(** The supply is where the ETH goes to WETH. *)
Example supply_sends_balance_to_weth :
  snd (transact (supplyToAave honest bob) (run [CallDeposit alice 10] initial))
  = Ok [WethDeposit 10; WethApprove 10; PoolSupply 10; Emit (SuppliedToAave 10 bob)].
Proof. vm_compute. reflexivity. Qed.

(** X3. The ETH that leaves the vault in a returning [withdraw] is the ETH
    the caller receives: the balance drops by exactly the amount sent, and
    no ETH is sent that the vault did not hold. *)
Theorem withdraw_conserves_eth ext sender amount s s' tr :
  transact (withdraw ext sender amount) s = (s', Ok tr) ->
  balance s' + native_paid sender tr = balance s.
Proof.
  intros H.
  destruct (withdraw_payments _ _ _ _ _ _ H)
    as [(Hb & _ & Hn & _ & Hb' & _) | (_ & w & a' & _ & _ & Hn & _ & Hb' & _)]; lia.
Qed.

Lemma withdraw_conserves_eth_witness :
  let s := run [CallDeposit alice 10; CallSupplyToAave honest bob; Accrue 20;
                CallDeposit bob 5] initial in
  balance (exec (CallWithdraw honest alice 5) s)
  + native_paid alice [PoolWithdraw 3; WethTransfer alice 3; EthSend alice 5;
                       Emit (Withdrawn alice 5 8)]
  = balance s.
Proof.
  apply (withdraw_conserves_eth honest alice 5
           (run [CallDeposit alice 10; CallSupplyToAave honest bob; Accrue 20;
                 CallDeposit bob 5] initial)).
  vm_compute. reflexivity.
Defined.

(** X4. The share computed by a returning [withdraw] (the amount in its
    [Withdrawn] event) never exceeds the vault value
    [balance + aTokenBalance]. For a caller who withdraws all the principal
    that is left the share is the whole vault value, stray ETH and rounding
    leftovers included, and that is what the caller is paid when the pool,
    if it is pulled from, hands out exactly what it is asked for. *)
Theorem withdraw_share_bounded ext sender amount s s' tr :
  transact (withdraw ext sender amount) s = (s', Ok tr) ->
  In (Emit (Withdrawn sender amount (share s amount))) tr /\
  share s amount <= balance s + aTokenBalance s /\
  (amount = totalDeposits s -> share s amount = balance s + aTokenBalance s) /\
  (amount = totalDeposits s ->
   (balance s < share s amount ->
    forall w a',
      pool_withdraw ext (aTokenBalance s) (share s amount - balance s) = Some (w, a') ->
      w = share s amount - balance s) ->
   native_paid sender tr + wrapped_paid sender tr = balance s + aTokenBalance s).
Proof.
  intros H.
  destruct (withdraw_ok_inv _ _ _ _ _ _ H) as (_ & _ & Hnz & Ht & _).
  split; [| split; [| split]].
  - destruct (withdraw_payments _ _ _ _ _ _ H)
      as [(_ & -> & _) | (_ & w & a' & _ & -> & _)];
      rewrite ?in_app_iff; simpl; rewrite ?in_app_iff; simpl; tauto.
  - apply share_le_value, Ht.
  - intros ->. apply share_of_everything, Hnz.
  - intros Hall Hexact.
    assert (Hshare : share s amount = balance s + aTokenBalance s)
      by (rewrite Hall; apply share_of_everything, Hnz).
    destruct (withdraw_payments _ _ _ _ _ _ H)
      as [(Hb & _ & Hn & Hw & _) | (Hb & w & a' & Hp & _ & Hn & Hw & _)].
    + lia.
    + specialize (Hexact Hb w a' Hp). lia.
Qed.

Lemma withdraw_share_bounded_witness :
  let s := run [CallDeposit alice 10; CallSupplyToAave honest bob; CallReceive 3] initial in
  let tr := [PoolWithdraw 10; WethTransfer alice 10; EthSend alice 3;
             Emit (Withdrawn alice 10 13)] in
  In (Emit (Withdrawn alice 10 (share s 10))) tr /\
  share s 10 <= balance s + aTokenBalance s /\
  share s 10 = balance s + aTokenBalance s /\
  native_paid alice tr + wrapped_paid alice tr = balance s + aTokenBalance s.
Proof.
  destruct (withdraw_share_bounded honest alice 10
              (run [CallDeposit alice 10; CallSupplyToAave honest bob; CallReceive 3] initial)
              (exec (CallWithdraw honest alice 10)
                 (run [CallDeposit alice 10; CallSupplyToAave honest bob; CallReceive 3]
                    initial))
              [PoolWithdraw 10; WethTransfer alice 10; EthSend alice 3;
               Emit (Withdrawn alice 10 13)])
    as (Hev & Hle & Hall & Hpaid).
  - vm_compute. reflexivity.
  - split; [exact Hev |]. split; [exact Hle |].
    split; [apply Hall; vm_compute; reflexivity |].
    apply Hpaid; [vm_compute; reflexivity |].
    intros _ w a'. vm_compute. intros [= <- _]. reflexivity.
Defined.

(** ** What a call does to the other depositors *)

(** X5. A [withdraw] never lowers what [getUserValue] reports for another
    depositor, as long as the value that left the vault is the share that
    was computed (always so when the share is paid from the idle ETH) and
    some principal is left: the floor in the share formula works in favour
    of those who stay. *)
Theorem withdraw_keeps_others_value ext sender amount s s' tr d :
  transact (withdraw ext sender amount) s = (s', Ok tr) ->
  balance s' + aTokenBalance s' + share s amount = balance s + aTokenBalance s ->
  d <> sender ->
  totalDeposits s' <> 0 ->
  share s (deposit_of s d) <= share s' (deposit_of s' d) /\
  forall v, view (getUserValue d) s = Ok v ->
            exists v', view (getUserValue d) s' = Ok v' /\ v <= v'.
Proof.
  intros H Hval Hne Hleft.
  destruct (withdraw_bookkeeping ext sender amount s s' tr H) as (_ & Ht & Hoth).
  rewrite (Hoth d Hne).
  assert (Hnz : totalDeposits s <> 0) by lia.
  assert (Hshare : share s amount * totalDeposits s
                   <= (balance s + aTokenBalance s) * amount).
  { unfold share. rewrite N.mul_comm. apply N.Div0.mul_div_le. }
  assert (Hcross : (balance s + aTokenBalance s) * totalDeposits s'
                   <= (balance s' + aTokenBalance s') * totalDeposits s) by nia.
  assert (Hle : share s (deposit_of s d) <= share s' (deposit_of s d)).
  { unfold share. apply div_le_cross; [assumption | assumption | nia]. }
  split; [assumption |].
  intros v. rewrite !getUserValue_view, (Hoth d Hne).
  know (totalDeposits s =? 0) false. know (totalDeposits s' =? 0) false.
  destruct (balance s + aTokenBalance s <=? MAX_UINT256) eqn:Hf1; simpl; [| discriminate].
  destruct ((balance s + aTokenBalance s) * deposit_of s d <=? MAX_UINT256) eqn:Hf2;
    simpl; [| discriminate].
  intros [= <-]. to_prop.
  know (balance s' + aTokenBalance s' <=? MAX_UINT256) true.
  know ((balance s' + aTokenBalance s') * deposit_of s d <=? MAX_UINT256) true.
  simpl. eexists. split; [reflexivity | exact Hle].
Qed.

Lemma withdraw_keeps_others_value_witness :
  let s := run [CallDeposit alice 10; CallDeposit bob 7; CallSupplyToAave honest bob;
                Accrue 20; CallDeposit bob 3] initial in
  let s' := exec (CallWithdraw honest alice 5) s in
  share s (deposit_of s bob) <= share s' (deposit_of s' bob) /\
  forall v, view (getUserValue bob) s = Ok v ->
            exists v', view (getUserValue bob) s' = Ok v' /\ v <= v'.
Proof.
  apply (withdraw_keeps_others_value honest alice 5
           (run [CallDeposit alice 10; CallDeposit bob 7; CallSupplyToAave honest bob;
                 Accrue 20; CallDeposit bob 3] initial) _
           [PoolWithdraw 2; WethTransfer alice 2; EthSend alice 3;
            Emit (Withdrawn alice 5 5)]).
  - vm_compute. reflexivity.
  - vm_compute. reflexivity.
  - discriminate.
  - vm_compute. discriminate.
Defined.

(** X6. A [deposit] made while the vault is worth more than its principal
    takes part in the surplus: it never raises, and can lower, what the
    share formula gives the other depositors. While the vault is worth at
    most its principal a deposit never lowers it. *)
Theorem deposit_dilutes_surplus sender value s s' tr d :
  transact (deposit sender value) s = (s', Ok tr) ->
  d <> sender ->
  totalDeposits s <> 0 ->
  (totalDeposits s <= balance s + aTokenBalance s ->
   share s' (deposit_of s' d) <= share s (deposit_of s d)) /\
  (balance s + aTokenBalance s <= totalDeposits s ->
   share s (deposit_of s d) <= share s' (deposit_of s' d)).
Proof.
  intros H Hne Hnz.
  destruct (deposit_ok_inv _ _ _ _ _ H) as (Hv & Hd & Ht).
  rewrite deposit_ok in H by assumption. injection H as <- _.
  unfold share, deposit_of. simpl. rewrite lookup_insert_ne by congruence.
  clear Hd Ht.
  set (p := default 0 (userDeposits s !! d)).
  split; intros Hcmp; apply div_le_cross; try lia.
  - assert (value * p * totalDeposits s <= value * p * (balance s + aTokenBalance s))
      by (apply N.mul_le_mono_l; assumption).
    lia.
  - assert (value * p * (balance s + aTokenBalance s) <= value * p * totalDeposits s)
      by (apply N.mul_le_mono_l; assumption).
    lia.
Qed.

Lemma deposit_dilutes_surplus_witness :
  let s := run [CallDeposit alice 10; CallSupplyToAave honest alice; Accrue 20] initial in
  let s' := exec (CallDeposit bob 10) s in
  (totalDeposits s <= balance s + aTokenBalance s ->
   share s' (deposit_of s' alice) <= share s (deposit_of s alice)) /\
  (balance s + aTokenBalance s <= totalDeposits s ->
   share s (deposit_of s alice) <= share s' (deposit_of s' alice)).
Proof.
  apply (deposit_dilutes_surplus bob 10
           (run [CallDeposit alice 10; CallSupplyToAave honest alice; Accrue 20] initial) _
           [Emit (Deposited bob 10)]).
  - vm_compute. reflexivity.
  - discriminate.
  - vm_compute. discriminate.
Defined.

(** The surplus alice had earned, 10, is halved by bob's deposit. *)
Example deposit_dilutes_surplus_strictly :
  let s := run [CallDeposit alice 10; CallSupplyToAave honest alice; Accrue 20] initial in
  view (getUserValue alice) s = Ok 20 /\
  view (getUserValue alice) (exec (CallDeposit bob 10) s) = Ok 15.
Proof. vm_compute. split; reflexivity. Qed.

(** ** Solvency of the reported values *)

Lemma fold_shares_le (m : gmap address N) tvv T :
  map_fold (fun _ p acc => (tvv * p) / T + acc) 0 m <= (tvv * sum_deposits m) / T.
Proof.
  induction m as [| i x m Hnone IH] using map_ind.
  - rewrite map_fold_empty. apply N.le_0_l.
  - rewrite map_fold_insert_L; [| intros; lia | assumption].
    rewrite sum_deposits_fresh by assumption.
    rewrite N.mul_add_distr_l.
    etransitivity; [| apply div_add_le].
    apply N.add_le_mono_l, IH.
Qed.

(** X7. In every state reached from the empty vault, the values
    [getUserValue] reports (the share of each record) add up, over all
    depositors, to no more than the vault value [balance + aTokenBalance]:
    the vault never promises more than it holds. *)
Theorem values_never_exceed_vault (cs : list call) :
  sum_values (run cs initial)
  <= balance (run cs initial) + aTokenBalance (run cs initial) /\
  forall d v, view (getUserValue d) (run cs initial) = Ok v ->
              v = share (run cs initial) (deposit_of (run cs initial) d).
Proof.
  split.
  - unfold sum_values, share.
    etransitivity; [apply fold_shares_le |].
    rewrite <- (run_keeps_total_sum cs initial initial_total_sum).
    destruct (N.eq_dec (totalDeposits (run cs initial)) 0) as [Hz | Hnz].
    + rewrite Hz, N.div_0_r. lia.
    + rewrite N.div_mul by assumption. lia.
  - intros d v. rewrite getUserValue_view. unfold share.
    destruct (totalDeposits (run cs initial) =? 0) eqn:Hz; to_prop.
    + intros [= <-]. rewrite Hz, N.div_0_r. reflexivity.
    + destruct (_ && _); [intros [= <-]; reflexivity | discriminate].
Qed.

(** ** Ranges *)

Lemma exec_keeps_total_in_range c s :
  totalDeposits s <= MAX_UINT256 -> totalDeposits (exec c s) <= MAX_UINT256.
Proof.
  intros Hr. unfold exec.
  destruct (transact_cases (body_of c) s) as [[e H] | (s' & tr & H)];
    rewrite H; simpl; [assumption |].
  destruct c as [sender value | ext sender | ext sender amount | value | b]; simpl in H.
  - destruct (deposit_ok_inv _ _ _ _ _ H) as (Hv & Hd & Ht).
    rewrite deposit_ok in H by assumption. injection H as <- _. assumption.
  - destruct (supply_ok_inv _ _ _ _ _ H) as (_ & _ & _ & a' & _ & -> & _). assumption.
  - destruct (withdraw_ok_inv _ _ _ _ _ _ H)
      as (_ & _ & _ & _ & _ & _ & [(_ & _ & _ & ->) | (_ & _ & w & a' & _ & _ & _ & _ & ->)]);
      simpl; lia.
  - rewrite receive_ok in H. injection H as <- _. assumption.
  - injection H as <- _. assumption.
Qed.

(** X8. Whatever calls are made, with whatever values and external
    answers, the ledger stays within its words: no record exceeds
    [totalDeposits], and [totalDeposits] never exceeds [2^256 - 1]. *)
Theorem ledger_stays_in_range (cs : list call) (a : address) :
  deposit_of (run cs initial) a <= totalDeposits (run cs initial) /\
  totalDeposits (run cs initial) <= MAX_UINT256.
Proof.
  split; [apply record_le_total |].
  assert (Hgen : forall s, totalDeposits s <= MAX_UINT256 ->
                           totalDeposits (run cs s) <= MAX_UINT256).
  { induction cs as [| c cs IH]; intros s Hr; simpl; [assumption |].
    apply IH, exec_keeps_total_in_range, Hr. }
  apply Hgen. vm_compute. discriminate.
Qed.

(** ** supplyToAave *)

(** X9. After a [supplyToAave] that returned, [getEthBalance] is 0 and a
    second [supplyToAave], by anyone, fails with "No ETH to supply" until
    ETH comes in again. *)
Theorem supply_twice_fails ext sender s s' tr :
  transact (supplyToAave ext sender) s = (s', Ok tr) ->
  view getEthBalance s' = Ok 0 /\
  forall ext' sender',
    transact (supplyToAave ext' sender') s' = (s', Err (Revert "No ETH to supply")).
Proof.
  intros H.
  destruct (supply_ok_inv _ _ _ _ _ H) as (_ & _ & _ & a' & _ & -> & _).
  split; [reflexivity |].
  intros ext' sender'. apply supply_no_eth. reflexivity.
Qed.

Lemma supply_twice_fails_witness :
  let s' := run [CallDeposit alice 10; CallSupplyToAave honest bob] initial in
  view getEthBalance s' = Ok 0 /\
  forall ext' sender',
    transact (supplyToAave ext' sender') s' = (s', Err (Revert "No ETH to supply")).
Proof.
  apply (supply_twice_fails honest bob (run [CallDeposit alice 10] initial) _
           [WethDeposit 10; WethApprove 10; PoolSupply 10; Emit (SuppliedToAave 10 bob)]).
  vm_compute. reflexivity.
Defined.

(** ** Withdrawals are always possible *)

(** X10. In every state reached from the empty vault, a depositor can
    withdraw any part [0 < amount <= userDeposits[caller]] of the recorded
    principal when the collaborators behave (the pool pays what it is asked
    for, WETH transfers, the caller accepts ETH) and the vault value and its
    product with [amount] fit in 256 bits: the call returns and pays the
    caller exactly the share. No division by zero and no underflow of
    [totalDeposits] can stop it. *)
Theorem withdraw_always_possible (cs : list call) sender amount :
  0 < amount ->
  amount <= deposit_of (run cs initial) sender ->
  balance (run cs initial) + aTokenBalance (run cs initial) <= MAX_UINT256 ->
  (balance (run cs initial) + aTokenBalance (run cs initial)) * amount <= MAX_UINT256 ->
  exists s' tr,
    transact (withdraw honest sender amount) (run cs initial) = (s', Ok tr) /\
    native_paid sender tr + wrapped_paid sender tr = share (run cs initial) amount.
Proof.
  set (s := run cs initial). intros Ha Hd Hfit Hprod.
  assert (Ht : amount <= totalDeposits s).
  { pose proof (record_le_total cs sender). fold s in H. lia. }
  pose proof (share_le_value s amount Ht) as Hshare.
  destruct (N.le_gt_cases (share s amount) (balance s)) as [Hidle | Hpool].
  - eexists. eexists. split.
    + apply withdraw_idle_ok; try assumption. right. reflexivity.
    + rewrite native_paid_app, wrapped_paid_app, wrapped_paid_opt_send.
      rewrite native_paid_opt_send by apply positive_or_zero. simpl. lia.
  - assert (Hk : 0 < aTokenBalance s).
    { destruct (N.eq_dec (aTokenBalance s) 0) as [Hz | Hnz]; [| lia].
      pose proof (share_covered_without_aTokens s amount Hz Ht). lia. }
    destruct (honest_pool_pays (share s amount - balance s) (aTokenBalance s))
      as [a' Hp]; [lia | lia |].
    eexists. eexists. split.
    + eapply withdraw_pool_ok; try eassumption; right; reflexivity.
    + simpl app at 1. cbn [native_paid wrapped_paid].
      rewrite !native_paid_app, !wrapped_paid_app.
      rewrite native_paid_opt_transfer, wrapped_paid_opt_send.
      rewrite native_paid_opt_send by apply positive_or_zero.
      rewrite wrapped_paid_opt_transfer by apply positive_or_zero.
      simpl. lia.
Qed.

Lemma withdraw_always_possible_witness :
  exists s' tr,
    transact (withdraw honest alice 5)
      (run [CallDeposit alice 10; CallSupplyToAave honest bob; Accrue 20;
            CallDeposit bob 5] initial) = (s', Ok tr) /\
    native_paid alice tr + wrapped_paid alice tr
    = share (run [CallDeposit alice 10; CallSupplyToAave honest bob; Accrue 20;
                  CallDeposit bob 5] initial) 5.
Proof.
  apply (withdraw_always_possible
           [CallDeposit alice 10; CallSupplyToAave honest bob; Accrue 20; CallDeposit bob 5]
           alice 5); vm_compute; first [reflexivity | discriminate].
Defined.

(** ** Valuation without loss *)

(** X11. While the vault is worth at least its principal and the products
    fit in 256 bits, [getUserValue] reports at least the depositor's record
    and [getUserInterest] reports exactly the excess; when the vault is
    worth exactly its principal the value is the record and the interest is
    0. *)
Theorem value_covers_principal s d :
  totalDeposits s <> 0 ->
  totalDeposits s <= balance s + aTokenBalance s ->
  balance s + aTokenBalance s <= MAX_UINT256 ->
  (balance s + aTokenBalance s) * deposit_of s d <= MAX_UINT256 ->
  exists v,
    view (getUserValue d) s = Ok v /\
    deposit_of s d <= v /\
    view (getUserInterest d) s = Ok (v - deposit_of s d) /\
    (balance s + aTokenBalance s = totalDeposits s -> v = deposit_of s d).
Proof.
  intros Hnz Hval Hfit Hprod.
  rewrite getUserValue_view, getUserInterest_view.
  know (totalDeposits s =? 0) false.
  know (balance s + aTokenBalance s <=? MAX_UINT256) true.
  know ((balance s + aTokenBalance s) * deposit_of s d <=? MAX_UINT256) true.
  simpl. eexists. split; [reflexivity |].
  split; [| split; [reflexivity |]].
  - apply N.div_le_lower_bound; [assumption |]. nia.
  - intros ->. rewrite N.mul_comm. apply N.div_mul. assumption.
Qed.

Lemma value_covers_principal_witness :
  let s := run [CallDeposit alice 10; CallDeposit bob 10; CallSupplyToAave honest bob;
                Accrue 22] initial in
  exists v,
    view (getUserValue alice) s = Ok v /\
    deposit_of s alice <= v /\
    view (getUserInterest alice) s = Ok (v - deposit_of s alice) /\
    (balance s + aTokenBalance s = totalDeposits s -> v = deposit_of s alice).
Proof.
  apply (value_covers_principal
           (run [CallDeposit alice 10; CallDeposit bob 10; CallSupplyToAave honest bob;
                 Accrue 22] initial) alice); vm_compute; discriminate.
Defined.

(** ** Construction and deployment *)

Lemma create_ok_intro p w a :
  p <> 0 -> w <> 0 -> a <> 0 ->
  create p w a = Ok ({| aavePool := p; weth := w; aToken := a |}, initial).
Proof.
  intros Hp Hw Ha. unfold create, constructor. unfold_monad. simpl.
  know (p =? 0) false. know (w =? 0) false. know (a =? 0) false. reflexivity.
Qed.

(** X12. Creating the vault succeeds exactly when none of the three
    addresses is [address(0)]; it then stores them unchanged and starts
    from the empty ledger. Otherwise it fails with the message of the
    first zero address, in the order pool, WETH, aToken. *)
Theorem create_spec p w a :
  (p <> 0 /\ w <> 0 /\ a <> 0 <->
   create p w a = Ok ({| aavePool := p; weth := w; aToken := a |}, initial)) /\
  (p = 0 -> create p w a = Err (Revert "Invalid Aave Pool address")) /\
  (p <> 0 -> w = 0 -> create p w a = Err (Revert "Invalid WETH address")) /\
  (p <> 0 -> w <> 0 -> a = 0 -> create p w a = Err (Revert "Invalid aToken address")).
Proof.
  unfold create, constructor. unfold_monad. simpl.
  destruct (p =? 0) eqn:Hp; destruct (w =? 0) eqn:Hw; destruct (a =? 0) eqn:Ha;
    simpl; to_prop; repeat split; intros; try reflexivity; try discriminate;
    try lia; try tauto.
Qed.

Lemma create_spec_witness :
  create 0 5 6 = Err (Revert "Invalid Aave Pool address") /\
  create 4 0 6 = Err (Revert "Invalid WETH address") /\
  create 4 5 0 = Err (Revert "Invalid aToken address") /\
  create 4 5 6 = Ok ({| aavePool := 4; weth := 5; aToken := 6 |}, initial).
Proof.
  split; [apply (create_spec 0 5 6); reflexivity |].
  split; [apply (create_spec 4 0 6); [discriminate | reflexivity] |].
  split; [apply (create_spec 4 5 0); [discriminate | discriminate | reflexivity] |].
  apply (create_spec 4 5 6). repeat split; discriminate.
Defined.

(** X13. The deployment script wires the vault to the address book: on
    "optimism", "localhost" and "hardhat", with no zero entry in the book,
    the vault is created with the book's pool, WETH and aToken, in this
    order, and an empty ledger. On any other network name the script throws
    an error naming the network and creates nothing. *)
Theorem deploy_wiring book networkName :
  (networkName = "optimism" \/ networkName = "localhost" \/ networkName = "hardhat" ->
   Deploy.POOL book <> 0 -> Deploy.UNDERLYING book <> 0 -> Deploy.A_TOKEN book <> 0 ->
   Deploy.deployAaveVault book networkName =
   inr (Ok ({| aavePool := Deploy.POOL book; weth := Deploy.UNDERLYING book;
               aToken := Deploy.A_TOKEN book |}, initial))) /\
  (networkName <> "optimism" -> networkName <> "localhost" -> networkName <> "hardhat" ->
   Deploy.deployAaveVault book networkName =
   inl (String.append "Network "
          (String.append networkName
             " not supported. Please add network configuration to getNetworkConfig() function."))).
Proof.
  unfold Deploy.deployAaveVault, Deploy.getNetworkConfig. split.
  - intros Hname Hp Hw Ha.
    assert (Hsel : String.eqb networkName "optimism" || String.eqb networkName "localhost"
                   || String.eqb networkName "hardhat" = true)
      by (destruct Hname as [-> | [-> | ->]]; reflexivity).
    rewrite Hsel. simpl. f_equal. apply create_ok_intro; assumption.
  - intros H1 H2 H3.
    apply String.eqb_neq in H1, H2, H3. rewrite H1, H2, H3. reflexivity.
Qed.

Lemma deploy_wiring_witness :
  Deploy.deployAaveVault
    {| Deploy.POOL := 4; Deploy.UNDERLYING := 5; Deploy.A_TOKEN := 6 |} "hardhat"
  = inr (Ok ({| aavePool := 4; weth := 5; aToken := 6 |}, initial)) /\
  Deploy.deployAaveVault
    {| Deploy.POOL := 4; Deploy.UNDERLYING := 5; Deploy.A_TOKEN := 6 |} "mainnet"
  = inl "Network mainnet not supported. Please add network configuration to getNetworkConfig() function.".
Proof.
  split.
  - apply (deploy_wiring {| Deploy.POOL := 4; Deploy.UNDERLYING := 5; Deploy.A_TOKEN := 6 |}
             "hardhat"); [right; right; reflexivity | discriminate | discriminate | discriminate].
  - apply (deploy_wiring {| Deploy.POOL := 4; Deploy.UNDERLYING := 5; Deploy.A_TOKEN := 6 |}
             "mainnet"); discriminate.
Defined.

(** ** Composition of calls *)

(** X14. Deposits add up: two returning deposits by the same sender leave
    the vault in the state a single deposit of the sum leaves it in, and
    that single deposit returns as well. *)
Theorem deposits_accumulate sender v1 v2 s s1 tr1 s2 tr2 :
  transact (deposit sender v1) s = (s1, Ok tr1) ->
  transact (deposit sender v2) s1 = (s2, Ok tr2) ->
  transact (deposit sender (v1 + v2)) s = (s2, Ok [Emit (Deposited sender (v1 + v2))]).
Proof.
  intros H1 H2.
  destruct (deposit_ok_inv _ _ _ _ _ H1) as (Hv1 & Hd1 & Ht1).
  rewrite deposit_ok in H1 by assumption. injection H1 as <- _.
  destruct (deposit_ok_inv _ _ _ _ _ H2) as (Hv2 & Hd2 & Ht2).
  rewrite deposit_ok in H2 by assumption. injection H2 as <- _.
  unfold deposit_of in *. simpl in *. rewrite lookup_insert_eq in *. simpl in *.
  rewrite deposit_ok; unfold deposit_of; simpl; try lia.
  rewrite insert_insert_eq, !N.add_assoc. reflexivity.
Qed.

Lemma deposits_accumulate_witness :
  transact (deposit alice (10 + 5)) initial
  = (run [CallDeposit alice 10; CallDeposit alice 5] initial,
     Ok [Emit (Deposited alice (10 + 5))]).
Proof.
  apply (deposits_accumulate alice 10 5 initial
           (run [CallDeposit alice 10] initial) [Emit (Deposited alice 10)]
           (run [CallDeposit alice 10; CallDeposit alice 5] initial)
           [Emit (Deposited alice 5)]).
  - vm_compute. reflexivity.
  - vm_compute. reflexivity.
Defined.

(** X15. ETH in, WETH out: in a vault worth exactly its principal, a
    deposit that is supplied to the pool and then withdrawn in full comes
    back entirely as WETH, the same amount, and no ETH is sent (the
    collaborators behaving). *)
Theorem supplied_deposit_returns_as_weth sender caller amount s s1 tr1 s2 tr2 s3 tr3 :
  balance s + aTokenBalance s = totalDeposits s ->
  transact (deposit sender amount) s = (s1, Ok tr1) ->
  transact (supplyToAave honest caller) s1 = (s2, Ok tr2) ->
  transact (withdraw honest sender amount) s2 = (s3, Ok tr3) ->
  wrapped_paid sender tr3 = amount /\ native_paid sender tr3 = 0 /\
  deposit_of s3 sender = deposit_of s sender.
Proof.
  intros Hval H1 H2 H3.
  destruct (deposit_ok_inv _ _ _ _ _ H1) as (Ha & Hd & Ht).
  rewrite deposit_ok in H1 by assumption. injection H1 as <- _.
  destruct (supply_ok_inv _ _ _ _ _ H2) as (_ & _ & _ & a2 & Hp2 & -> & _).
  simpl in Hp2. injection Hp2 as <-.
  set (s2 := set_aToken _ _) in *.
  assert (Hshare : share s2 amount = amount).
  { unfold share, s2. simpl.
    replace (aTokenBalance s + (balance s + amount)) with (totalDeposits s + amount) by lia.
    rewrite N.mul_comm. apply N.div_mul. lia. }
  destruct (withdraw_bookkeeping honest sender amount s2 s3 tr3 H3) as (Hrec & _ & _).
  assert (Hrec2 : deposit_of s2 sender = deposit_of s sender + amount).
  { unfold s2, deposit_of. simpl. rewrite lookup_insert_eq. reflexivity. }
  destruct (withdraw_payments _ _ _ _ _ _ H3)
    as [(Hb & _) | (_ & w & a' & Hp & _ & Hn & Hw & _)].
  - rewrite Hshare in Hb. unfold s2 in Hb. simpl in Hb. lia.
  - rewrite Hshare in Hp. unfold s2 in Hp, Hn. simpl in Hp, Hn.
    rewrite N.sub_0_r in Hp.
    destruct (amount =? MAX_UINT256) eqn:Hmax; to_prop.
    + assert (aTokenBalance s + (balance s + amount) = amount) as Heq by lia.
      rewrite Heq, N.leb_refl in Hp. injection Hp as <- _.
      repeat split; lia.
    + destruct (amount <=? _); [| discriminate]. injection Hp as <- _.
      repeat split; lia.
Qed.

Lemma supplied_deposit_returns_as_weth_witness :
  let s := run [CallDeposit alice 10; CallSupplyToAave honest alice] initial in
  let tr3 := [PoolWithdraw 4; WethTransfer bob 4; Emit (Withdrawn bob 4 4)] in
  wrapped_paid bob tr3 = 4 /\ native_paid bob tr3 = 0 /\
  deposit_of (run [CallDeposit bob 4; CallSupplyToAave honest alice;
                   CallWithdraw honest bob 4] s) bob = deposit_of s bob.
Proof.
  apply (supplied_deposit_returns_as_weth bob alice 4
           (run [CallDeposit alice 10; CallSupplyToAave honest alice] initial)
           (run [CallDeposit alice 10; CallSupplyToAave honest alice; CallDeposit bob 4] initial)
           [Emit (Deposited bob 4)]
           (run [CallDeposit alice 10; CallSupplyToAave honest alice; CallDeposit bob 4;
                 CallSupplyToAave honest alice] initial)
           [WethDeposit 4; WethApprove 4; PoolSupply 4; Emit (SuppliedToAave 4 alice)]).
  - vm_compute. reflexivity.
  - vm_compute. reflexivity.
  - vm_compute. reflexivity.
  - vm_compute. reflexivity.
Defined.

(** ** Effects before interactions *)

Ltac early_abort :=
  intros [= <- <-]; intros [? | [? | [? | ?]]]; discriminate.

Ltac late_abort :=
  intros [= <- <-]; intros _; unfold deposit_of in *; simpl;
  rewrite lookup_insert_eq; simpl; split; lia.

(** X16. [withdraw] updates the ledger before it touches a collaborator:
    whenever the body stops because the pool or WETH reverted or a WETH or
    ETH transfer failed, the caller's record and [totalDeposits] had
    already been reduced by [amount] at that point, which is what a callee
    would see during the call; the transaction then restores the state. *)
Theorem withdraw_effects_before_interactions ext sender amount s m e :
  withdraw ext sender amount {| vault := s; trace := [] |} = (m, Err e) ->
  e = CalleeReverted ThePool \/ e = CalleeReverted TheWeth \/
  e = Revert "WETH transfer failed" \/ e = Revert "ETH transfer failed" ->
  deposit_of (vault m) sender + amount = deposit_of s sender /\
  totalDeposits (vault m) + amount = totalDeposits s.
Proof.
  unfold withdraw, getTotalVaultValue, call_pool_withdraw, call_weth_transfer,
    call_eth_send.
  unfold_monad. simpl.
  destruct (0 <? amount) eqn:Ha; simpl; [| early_abort].
  destruct (amount <=? deposit_of s sender) eqn:Hd; simpl; [| early_abort].
  destruct (balance s + aTokenBalance s <=? MAX_UINT256) eqn:Hs; simpl; [| early_abort].
  destruct ((balance s + aTokenBalance s) * amount <=? MAX_UINT256) eqn:Hm;
    simpl; [| early_abort].
  destruct (totalDeposits s =? 0) eqn:Ht; simpl; [early_abort |].
  rewrite Hd. simpl.
  destruct (amount <=? totalDeposits s) eqn:Hat; simpl; [| early_abort].
  fold (share s amount). to_prop.
  destruct ((balance s <? share s amount) && (0 <? aTokenBalance s)) eqn:Hroute; simpl.
  - destruct (balance s <=? share s amount) eqn:Hle; simpl; [| early_abort].
    destruct (pool_withdraw ext (aTokenBalance s) (share s amount - balance s))
      as [[w a']|]; simpl; [| late_abort].
    destruct (0 <? w); simpl.
    + destruct (weth_transfer ext sender w) as [[|]|]; simpl; [| late_abort | late_abort].
      destruct (0 <? balance s); simpl; [| discriminate].
      destruct ((balance s <=? balance s) && eth_accept ext sender (balance s)); simpl;
        [discriminate | late_abort].
    + destruct (0 <? balance s); simpl; [| discriminate].
      destruct ((balance s <=? balance s) && eth_accept ext sender (balance s)); simpl;
        [discriminate | late_abort].
  - destruct (0 <? share s amount); simpl; [| discriminate].
    destruct ((share s amount <=? balance s) && eth_accept ext sender (share s amount));
      simpl; [discriminate | late_abort].
Qed.

Lemma withdraw_effects_before_interactions_witness :
  let s := run [CallDeposit alice 10] initial in
  let m := fst (withdraw refusing alice 4 {| vault := s; trace := [] |}) in
  deposit_of (vault m) alice + 4 = deposit_of s alice /\
  totalDeposits (vault m) + 4 = totalDeposits s.
Proof.
  apply (withdraw_effects_before_interactions refusing alice 4
           (run [CallDeposit alice 10] initial) _ (Revert "ETH transfer failed")).
  - vm_compute. reflexivity.
  - right. right. right. reflexivity.
Defined.

(** ** The vault stays worth its principal *)

Lemma exec_keeps_value_above_principal c s :
  value_kept c s ->
  totalDeposits s <= balance s + aTokenBalance s ->
  totalDeposits (exec c s) <= balance (exec c s) + aTokenBalance (exec c s).
Proof.
  intros Hkept Hval. unfold exec.
  destruct (transact_cases (body_of c) s) as [[e H] | (s' & tr & H)];
    rewrite H; simpl; [assumption |].
  destruct c as [sender value | ext sender | ext sender amount | value | b];
    simpl in H, Hkept.
  - destruct (deposit_ok_inv _ _ _ _ _ H) as (Hv & Hd & Ht).
    rewrite deposit_ok in H by assumption. injection H as <- _. simpl. lia.
  - destruct (supply_ok_inv _ _ _ _ _ H) as (_ & _ & _ & a' & Hp & -> & _).
    specialize (Hkept a' Hp). simpl. lia.
  - assert (Hshare : share s amount * totalDeposits s
                     <= (balance s + aTokenBalance s) * amount).
    { unfold share. rewrite N.mul_comm. apply N.Div0.mul_div_le. }
    destruct (withdraw_ok_inv _ _ _ _ _ _ H)
      as (_ & _ & Hnz & Ht & _ & _ &
          [(Hb & _ & _ & ->) | (Hb & _ & w & a' & Hp & _ & _ & _ & ->)]); simpl.
    + assert (share s amount <= amount + (balance s + aTokenBalance s - totalDeposits s))
        by nia.
      lia.
    + specialize (Hkept w a' Hp).
      assert (share s amount <= amount + (balance s + aTokenBalance s - totalDeposits s))
        by nia.
      lia.
  - rewrite receive_ok in H. injection H as <- _. simpl. lia.
  - injection H as <- _. simpl. lia.
Qed.

(** X17. As long as the pool loses nothing (supplies are credited at least
    1:1, a withdrawal burns exactly the aTokens asked for, the aToken
    balance otherwise only grows), the vault is worth at least its
    principal after every call: [totalDeposits <= balance + aTokenBalance].
    Every withdrawal takes at most its proportional part of the surplus. *)
Theorem value_stays_above_principal (cs : list call) :
  all_value_kept cs initial ->
  totalDeposits (run cs initial)
  <= balance (run cs initial) + aTokenBalance (run cs initial).
Proof.
  assert (Hgen : forall s, all_value_kept cs s ->
                           totalDeposits s <= balance s + aTokenBalance s ->
                           totalDeposits (run cs s)
                           <= balance (run cs s) + aTokenBalance (run cs s)).
  { induction cs as [| c cs IH]; intros s Hall Hval; simpl; [assumption |].
    destruct Hall as [Hc Hrest].
    apply IH; [assumption |]. apply exec_keeps_value_above_principal; assumption. }
  intros Hall. apply Hgen; [assumption |]. simpl. lia.
Qed.

Lemma value_stays_above_principal_witness :
  let cs := [CallDeposit alice 10; CallDeposit bob 7; CallSupplyToAave honest bob;
             Accrue 20; CallDeposit bob 3; CallWithdraw honest alice 5] in
  totalDeposits (run cs initial)
  <= balance (run cs initial) + aTokenBalance (run cs initial).
Proof.
  apply (value_stays_above_principal
           [CallDeposit alice 10; CallDeposit bob 7; CallSupplyToAave honest bob;
            Accrue 20; CallDeposit bob 3; CallWithdraw honest alice 5]).
  cbn [all_value_kept value_kept].
  split; [exact I |]. split; [exact I |].
  split; [intros a'; vm_compute; intros [= <-]; discriminate |].
  split; [vm_compute; discriminate |].
  split; [exact I |].
  split; [| exact I].
  intros w a'. vm_compute. intros [= _ <-]. reflexivity.
Defined.
